(** * SecureShare: a shallow embedding of [main.py]

    The development follows the order of the script: the two library
    layers it leans on (base64, datetime), the persistence helpers
    [load_shared_data] / [save_shared_data], the code generator, key
    derivation and the Fernet codec, and finally the button handlers of the
    "Send" and "Receive" tabs and the expiry sweep that closes every run.

    Python [bytes] are [list byte], Python [str] is [string], the
    [st.session_state.files] dictionary is a [gmap string info]. *)

From Stdlib Require Import NArith ZArith Lia List Bool.
From Stdlib Require Import Strings.String Strings.Ascii Strings.Byte.
From stdpp Require Import gmap strings list fin_maps.

Open Scope N_scope.

(** ** Errors

    The exceptions the modelled code can raise. *)

Inductive exn : Type :=
| BinasciiError      (* binascii.Error: bad base64 *)
| ValueError         (* ValueError: bad key length, bad ISO string, ... *)
| UnicodeError       (* non-ASCII text where ASCII is required *)
| OverflowError      (* int.to_bytes / date arithmetic out of range *)
| InvalidToken       (* cryptography.fernet.InvalidToken *)
| AlreadyFinalized   (* cryptography.exceptions.AlreadyFinalized *)
| KeyError.          (* missing dictionary key *)

Inductive result (A : Type) : Type :=
| Ok (a : A)
| Raise (e : exn).
Arguments Ok {A} a.
Arguments Raise {A} e.

Definition rbind {A B} (r : result A) (k : A -> result B) : result B :=
  match r with
  | Ok a => k a
  | Raise e => Raise e
  end.

Notation "'let!' x ':=' r 'in' k" := (rbind r (fun x => k))
  (at level 10, x pattern, r at level 100, k at level 200).

Fixpoint rmap {A B} (f : A -> result B) (l : list A) : result (list B) :=
  match l with
  | [] => Ok []
  | a :: l' =>
      let! b := f a in
      let! bs := rmap f l' in
      Ok (b :: bs)
  end.

(** ** Bytes *)

Abbreviation bytes := (list byte).

Definition byte_of_N (n : N) : byte :=
  match Byte.of_N (n mod 256) with
  | Some b => b
  | None => x00
  end.

Definition all_bytes : list byte := map byte_of_N (map N.of_nat (seq 0 256)).

Definition byte_eqb (a b : byte) : bool := Byte.eqb a b.

Fixpoint bytes_eqb (a b : bytes) : bool :=
  match a, b with
  | [], [] => true
  | x :: a', y :: b' => byte_eqb x y && bytes_eqb a' b'
  | _, _ => false
  end.

(** ** base64

    [base64.b64encode] is [binascii.b2a_base64] without the trailing newline:
    three input bytes become four alphabet characters, a tail of one or two
    bytes is padded with [=]. *)

Definition b64_alphabet : bytes :=
  list_byte_of_string
    "ABCDEFGHIJKLMNOPQRSTUVWXYZabcdefghijklmnopqrstuvwxyz0123456789+/".

Definition BASE64_PAD : byte := "="%byte.

Definition table_b2a_base64 (i : N) : byte :=
  nth (N.to_nat i) b64_alphabet BASE64_PAD.

Fixpoint index_of (c : byte) (l : bytes) (i : N) : option N :=
  match l with
  | [] => None
  | x :: l' => if byte_eqb c x then Some i else index_of c l' (N.succ i)
  end.

(** [table_a2b_base64[c]]: the 6-bit value of an alphabet character, [None]
    for every other byte (the C table holds a value of 64 or more there). *)
Definition table_a2b_base64 (c : byte) : option N := index_of c b64_alphabet 0.

Fixpoint b2a_base64 (data : bytes) : bytes :=
  match data with
  | [] => []
  | [a] =>
      let a := Byte.to_N a in
      [ table_b2a_base64 (N.shiftr a 2);
        table_b2a_base64 (N.shiftl (N.land a 3) 4);
        BASE64_PAD; BASE64_PAD ]
  | [a; b] =>
      let a := Byte.to_N a in
      let b := Byte.to_N b in
      [ table_b2a_base64 (N.shiftr a 2);
        table_b2a_base64 (N.lor (N.shiftl (N.land a 3) 4) (N.shiftr b 4));
        table_b2a_base64 (N.shiftl (N.land b 15) 2);
        BASE64_PAD ]
  | a :: b :: c :: rest =>
      let a := Byte.to_N a in
      let b := Byte.to_N b in
      let c := Byte.to_N c in
      table_b2a_base64 (N.shiftr a 2)
      :: table_b2a_base64 (N.lor (N.shiftl (N.land a 3) 4) (N.shiftr b 4))
      :: table_b2a_base64 (N.lor (N.shiftl (N.land b 15) 2) (N.shiftr c 6))
      :: table_b2a_base64 (N.land c 63)
      :: b2a_base64 rest
  end.

(** [binascii.a2b_base64] in its default, non-strict mode: a single pass
    over the input that keeps the position inside the current quad, the bits
    left over from the previous character and the number of pad characters
    seen in a row.  Bytes outside the alphabet are skipped; a pad sequence
    that completes a quad stops the scan; input that ends inside a quad is
    an error. *)
Fixpoint a2b_base64_loop (ascii_data : bytes) (quad_pos : N) (leftchar : N)
    (pads : N) (bin_data : bytes) : result bytes :=
  match ascii_data with
  | [] => if quad_pos =? 0 then Ok bin_data else Raise BinasciiError
  | this_ch :: rest =>
      if byte_eqb this_ch BASE64_PAD then
        if 2 <=? quad_pos then
          if 4 <=? quad_pos + (pads + 1) then Ok bin_data
          else a2b_base64_loop rest quad_pos leftchar (pads + 1) bin_data
        else a2b_base64_loop rest quad_pos leftchar pads bin_data
      else
        match table_a2b_base64 this_ch with
        | None => a2b_base64_loop rest quad_pos leftchar pads bin_data
        | Some v =>
            if quad_pos =? 0 then
              a2b_base64_loop rest 1 v 0 bin_data
            else if quad_pos =? 1 then
              a2b_base64_loop rest 2 (N.land v 15) 0
                (bin_data ++ [byte_of_N (N.lor (N.shiftl leftchar 2) (N.shiftr v 4))])
            else if quad_pos =? 2 then
              a2b_base64_loop rest 3 (N.land v 3) 0
                (bin_data ++ [byte_of_N (N.lor (N.shiftl leftchar 4) (N.shiftr v 2))])
            else
              a2b_base64_loop rest 0 0 0
                (bin_data ++ [byte_of_N (N.lor (N.shiftl leftchar 6) v)])
        end
  end.

Definition a2b_base64 (ascii_data : bytes) : result bytes :=
  a2b_base64_loop ascii_data 0 0 0 [].

Definition b64encode (s : bytes) : bytes := b2a_base64 s.
Definition b64decode (s : bytes) : result bytes := a2b_base64 s.

(** [bytes.translate] with the two-character tables of the url-safe
    variant. *)
Definition urlsafe_encode_translation (c : byte) : byte :=
  if byte_eqb c "+"%byte then "-"%byte
  else if byte_eqb c "/"%byte then "_"%byte else c.

Definition urlsafe_decode_translation (c : byte) : byte :=
  if byte_eqb c "-"%byte then "+"%byte
  else if byte_eqb c "_"%byte then "/"%byte else c.

Definition urlsafe_b64encode (s : bytes) : bytes :=
  map urlsafe_encode_translation (b64encode s).

Definition urlsafe_b64decode (s : bytes) : result bytes :=
  b64decode (map urlsafe_decode_translation s).

(** [bytes.decode()] on ASCII data and the implicit [str.encode('ascii')]
    that [b64decode] applies to a text argument. *)
Definition is_ascii_byte (b : byte) : bool := Byte.to_N b <? 128.

Definition bytes_decode (b : bytes) : result string :=
  if forallb is_ascii_byte b then Ok (string_of_list_byte b)
  else Raise UnicodeError.

Definition str_encode_ascii (s : string) : result bytes :=
  let b := list_byte_of_string s in
  if forallb is_ascii_byte b then Ok b else Raise ValueError.

Definition b64decode_str (s : string) : result bytes :=
  let! b := str_encode_ascii s in
  b64decode b.


(** ** datetime

    A naive [datetime] is its seven fields.  Python keeps every instance
    inside the ranges checked by [valid_datetime]; the constructors below
    ([fromisoformat], addition of a [timedelta]) raise instead of building
    an instance outside them. *)

Record datetime : Type := mk_datetime {
  year : N; month : N; day : N;
  hour : N; minute : N; second : N; microsecond : N
}.

Definition MINYEAR : N := 1.
Definition MAXYEAR : N := 9999.

Definition is_leap (y : N) : bool :=
  (y mod 4 =? 0) && (negb (y mod 100 =? 0) || (y mod 400 =? 0)).

Definition days_in_month (y m : N) : N :=
  if m =? 2 then (if is_leap y then 29 else 28)
  else if (m =? 4) || (m =? 6) || (m =? 9) || (m =? 11) then 30
  else 31.

Definition valid_date (y m d : N) : bool :=
  (MINYEAR <=? y) && (y <=? MAXYEAR) && (1 <=? m) && (m <=? 12)
  && (1 <=? d) && (d <=? days_in_month y m).

Definition valid_time (h mi s us : N) : bool :=
  (h <? 24) && (mi <? 60) && (s <? 60) && (us <? 1000000).

Definition valid_datetime (t : datetime) : bool :=
  valid_date (year t) (month t) (day t)
  && valid_time (hour t) (minute t) (second t) (microsecond t).

(** The constructor call [datetime(y, m, d, h, mi, s, us)]. *)
Definition datetime_new (y m d h mi s us : N) : result datetime :=
  if valid_date y m d && valid_time h mi s us
  then Ok (mk_datetime y m d h mi s us)
  else Raise ValueError.

(** Comparison of naive datetimes: the field tuples, lexicographically. *)
Definition lex (c : comparison) (k : comparison) : comparison :=
  match c with
  | Eq => k
  | _ => c
  end.

Definition datetime_cmp (a b : datetime) : comparison :=
  lex (year a ?= year b)
 (lex (month a ?= month b)
 (lex (day a ?= day b)
 (lex (hour a ?= hour b)
 (lex (minute a ?= minute b)
 (lex (second a ?= second b)
      (microsecond a ?= microsecond b)))))).

Definition datetime_gt (a b : datetime) : bool :=
  match datetime_cmp a b with
  | Gt => true
  | _ => false
  end.

Definition datetime_le (a b : datetime) : bool := negb (datetime_gt a b).

(** *** isoformat / fromisoformat *)

Definition digit_char (d : N) : ascii := ascii_of_N (48 + d).

Definition digit_value (c : ascii) : option N :=
  let n := N_of_ascii c in
  if (48 <=? n) && (n <=? 57) then Some (n - 48) else None.

(** [w] decimal digits of [n], most significant first. *)
Fixpoint digits (w : nat) (n : N) : string :=
  match w with
  | O => EmptyString
  | S w' => String (digit_char (n / 10 ^ N.of_nat w'))
                   (digits w' (n mod 10 ^ N.of_nat w'))
  end.

Fixpoint decimal_fuel (fuel : nat) (n : N) (acc : string) : string :=
  match fuel with
  | O => acc
  | S fuel' =>
      let acc' := String (digit_char (n mod 10)) acc in
      if n <? 10 then acc' else decimal_fuel fuel' (n / 10) acc'
  end.

(** [str(n)] for a non-negative integer. *)
Definition str_of_N (n : N) : string :=
  decimal_fuel (S (N.to_nat (N.log2 n))) n EmptyString.

(** The [%0wd] conversion: zero padding up to [w] digits, and all the digits
    of a number that needs more. *)
Definition zero_padded (w : nat) (n : N) : string :=
  if n <? 10 ^ N.of_nat w then digits w n else str_of_N n.

Definition isoformat (t : datetime) : string :=
  zero_padded 4 (year t) +:+ "-" +:+ zero_padded 2 (month t) +:+ "-"
  +:+ zero_padded 2 (day t) +:+ "T"
  +:+ zero_padded 2 (hour t) +:+ ":" +:+ zero_padded 2 (minute t) +:+ ":"
  +:+ zero_padded 2 (second t)
  +:+ (if microsecond t =? 0 then EmptyString
       else "." +:+ zero_padded 6 (microsecond t)).

Fixpoint parse_digits (w : nat) (s : string) (acc : N) : result (N * string) :=
  match w with
  | O => Ok (acc, s)
  | S w' =>
      match s with
      | EmptyString => Raise ValueError
      | String c s' =>
          match digit_value c with
          | Some d => parse_digits w' s' (acc * 10 + d)
          | None => Raise ValueError
          end
      end
  end.

Definition expect_char (c : ascii) (s : string) : result string :=
  match s with
  | String c' s' => if Ascii.eqb c c' then Ok s' else Raise ValueError
  | EmptyString => Raise ValueError
  end.

(** The fraction of a second: nothing, or a point followed by three or by
    six digits. *)
Definition parse_fraction (s : string) : result N :=
  match s with
  | EmptyString => Ok 0
  | String c s' =>
      if Ascii.eqb c "." then
        if (String.length s' =? 3)%nat then
          let! (ms, rest) := parse_digits 3 s' 0 in Ok (ms * 1000)
        else
          let! (us, rest) := parse_digits 6 s' 0 in
          match rest with
          | EmptyString => Ok us
          | _ => Raise ValueError
          end
      else Raise ValueError
  end.

(** [datetime.fromisoformat] on the strings [isoformat] writes for a naive
    datetime: [YYYY-MM-DD], any one separator character, [HH:MM:SS] and an
    optional fraction of three or six digits.  On these strings it is exact.
    The library reads more (hours alone, hours and minutes, fractions of
    other lengths, UTC offsets, the basic format without separators); those
    strings are outside this model and raise here, so nothing below is
    concluded from a timestamp that fails to parse. *)
Definition fromisoformat (s : string) : result datetime :=
  let! (y, s) := parse_digits 4 s 0 in
  let! s := expect_char "-" s in
  let! (m, s) := parse_digits 2 s 0 in
  let! s := expect_char "-" s in
  let! (d, s) := parse_digits 2 s 0 in
  match s with
  | EmptyString => datetime_new y m d 0 0 0 0
  | String _sep s =>
      let! (h, s) := parse_digits 2 s 0 in
      let! s := expect_char ":" s in
      let! (mi, s) := parse_digits 2 s 0 in
      let! s := expect_char ":" s in
      let! (sec, s) := parse_digits 2 s 0 in
      let! us := parse_fraction s in
      datetime_new y m d h mi sec us
  end.

(** *** timedelta and datetime arithmetic

    Only non-negative durations occur in the script.  A [timedelta] is kept
    normalised: [seconds] below a day, [microseconds] below a second. *)

Record timedelta : Type := mk_timedelta {
  td_days : N; td_seconds : N; td_microseconds : N
}.

(** [timedelta(hours=h)]. *)
Definition timedelta_hours (h : N) : timedelta :=
  let s := h * 3600 in
  mk_timedelta (s / 86400) (s mod 86400) 0.

(** The calendar day after [(y, m, d)]; past 9999-12-31 the date is out of
    range. *)
Definition next_day (date : N * N * N) : result (N * N * N) :=
  let '(y, m, d) := date in
  if d <? days_in_month y m then Ok (y, m, d + 1)
  else if m <? 12 then Ok (y, m + 1, 1)
  else if y <? MAXYEAR then Ok (y + 1, 1, 1)
  else Raise OverflowError.

Fixpoint add_days (n : nat) (date : N * N * N) : result (N * N * N) :=
  match n with
  | O => Ok date
  | S n' => let! date' := next_day date in add_days n' date'
  end.

(** [t + td]: microseconds carry into seconds, seconds into days, and the
    date moves forward by the resulting number of days. *)
Definition datetime_add (t : datetime) (td : timedelta) : result datetime :=
  let us := microsecond t + td_microseconds td in
  let secs := hour t * 3600 + minute t * 60 + second t
              + td_seconds td + us / 1000000 in
  let sod := secs mod 86400 in
  let! (y, m, d) :=
    add_days (N.to_nat (td_days td + secs / 86400)) (year t, month t, day t) in
  Ok (mk_datetime y m d (sod / 3600) (sod mod 3600 / 60) (sod mod 60)
        (us mod 1000000)).

(** ** The share records

    One entry of [st.session_state.files] is a dictionary with the keys
    [files], [salt], [created] and [expires]; each element of [files] is a
    dictionary with the keys [name], [data], [size] and [encrypted]. *)

Record file_entry : Type := mk_file {
  f_name : string;
  f_data : bytes;
  f_size : N;
  f_encrypted : bool
}.

Record info : Type := mk_info {
  i_files : list file_entry;
  i_salt : bytes;
  i_created : datetime;
  i_expires : datetime
}.

(** The same two dictionaries as they stand in [shared_files.json]: byte
    strings are base64 text, datetimes are ISO text.  The JSON text itself is
    not modelled; the file holds the document tree that [json.dump] is given
    and [json.load] returns. *)

Record json_file : Type := mk_json_file {
  j_name : string;
  j_data : string;
  j_size : N;
  j_encrypted : bool
}.

Record json_info : Type := mk_json_info {
  j_salt : string;
  j_created : string;
  j_expires : string;
  j_files : list json_file
}.

(** A fallible function applied to every value of a dictionary. *)
Definition map_rmap {A B} (f : A -> result B) (m : gmap string A)
  : result (gmap string B) :=
  let! l := rmap (fun kv => let! b := f (snd kv) in Ok (fst kv, b))
                 (map_to_list m) in
  Ok (list_to_map l).

Definition load_file (file : json_file) : result file_entry :=
  let! data := b64decode_str (j_data file) in
  Ok (mk_file (j_name file) data (j_size file) (j_encrypted file)).

Definition load_info (entry : json_info) : result info :=
  let! salt := b64decode_str (j_salt entry) in
  let! created := fromisoformat (j_created entry) in
  let! expires := fromisoformat (j_expires entry) in
  let! files := rmap load_file (j_files entry) in
  Ok (mk_info files salt created expires).

Definition save_file (file : file_entry) : result json_file :=
  let! data := bytes_decode (b64encode (f_data file)) in
  Ok (mk_json_file (f_name file) data (f_size file) (f_encrypted file)).

Definition save_info (entry : info) : result json_info :=
  let! salt := bytes_decode (b64encode (i_salt entry)) in
  let created := isoformat (i_created entry) in
  let expires := isoformat (i_expires entry) in
  let! files := rmap save_file (i_files entry) in
  Ok (mk_json_info salt created expires files).

(** ** The world the script runs in

    [st.session_state], the JSON file next to the script, the operating
    system's random source, the wall clock read by [datetime.now()] and the
    epoch clock read by [time.time()].  The three sources are tapes of
    future readings: reading one consumes its head. *)

Record session_state : Type := mk_session {
  files : gmap string info;
  share_code : option string;
  encryption_key : option bytes;
  current_download : option string
}.

Record world : Type := mk_world {
  st : session_state;
  SHARED_DATA_FILE : option (gmap string json_info);
  entropy : nat -> N;
  clock : nat -> datetime;
  epoch : nat -> N
}.

Definition M (A : Type) : Type := world -> result (A * world).

Definition ret {A} (a : A) : M A := fun w => Ok (a, w).

Definition bind {A B} (m : M A) (k : A -> M B) : M B :=
  fun w =>
    match m w with
    | Ok (a, w') => k a w'
    | Raise e => Raise e
    end.

Notation "x <- m ;; k" := (bind m (fun x => k))
  (at level 100, m at next level, right associativity).
Notation "m ;;; k" := (bind m (fun _ => k))
  (at level 100, right associativity).

Definition lift {A} (r : result A) : M A :=
  fun w => match r with Ok a => Ok (a, w) | Raise e => Raise e end.

Definition tail {A} (tape : nat -> A) : nat -> A := fun i => tape (S i).

Definition get_state : M session_state := fun w => Ok (st w, w).

Definition set_state (s : session_state) : M unit :=
  fun w => Ok (tt, mk_world s (SHARED_DATA_FILE w) (entropy w) (clock w) (epoch w)).

Definition read_file : M (option (gmap string json_info)) :=
  fun w => Ok (SHARED_DATA_FILE w, w).

Definition write_file (doc : gmap string json_info) : M unit :=
  fun w => Ok (tt, mk_world (st w) (Some doc) (entropy w) (clock w) (epoch w)).

(** [datetime.now()] *)
Definition datetime_now : M datetime :=
  fun w => Ok (clock w O,
               mk_world (st w) (SHARED_DATA_FILE w) (entropy w) (tail (clock w))
                        (epoch w)).

(** [int(time.time())] *)
Definition time_time : M N :=
  fun w => Ok (epoch w O,
               mk_world (st w) (SHARED_DATA_FILE w) (entropy w) (clock w)
                        (tail (epoch w))).

Definition draw : M N :=
  fun w => Ok (entropy w O,
               mk_world (st w) (SHARED_DATA_FILE w) (tail (entropy w)) (clock w)
                        (epoch w)).

(** [secrets.randbelow(n)]: a value below [n], here the next reading of the
    random source reduced modulo [n]. *)
Definition randbelow (n : N) : M N :=
  r <- draw ;; ret (r mod n).

Fixpoint repeatM {A} (n : nat) (m : M A) : M (list A) :=
  match n with
  | O => ret []
  | S n' => a <- m ;; l <- repeatM n' m ;; ret (a :: l)
  end.

Fixpoint forM {A B} (l : list A) (f : A -> M B) : M (list B) :=
  match l with
  | [] => ret []
  | a :: l' => b <- f a ;; bs <- forM l' f ;; ret (b :: bs)
  end.

(** [secrets.token_bytes(n)] and [os.urandom(n)] *)
Definition token_bytes (n : nat) : M bytes :=
  repeatM n (r <- draw ;; ret (byte_of_N r)).

Definition urandom (n : nat) : M bytes := token_bytes n.

(** ** Persistence *)

Definition set_files (s : session_state) (fs : gmap string info) : session_state :=
  mk_session fs (share_code s) (encryption_key s) (current_download s).

(** [load_shared_data]: when the file exists, every record is decoded and
    the result replaces [st.session_state.files]. *)
Definition load_shared_data : M unit :=
  doc <- read_file ;;
  match doc with
  | Some data =>
      data <- lift (map_rmap load_info data) ;;
      s <- get_state ;;
      set_state (set_files s data)
  | None => ret tt
  end.

(** [save_shared_data] *)
Definition save_shared_data : M unit :=
  s <- get_state ;;
  data <- lift (map_rmap save_info (files s)) ;;
  write_file data.

(** ** Cryptographic primitives

    HMAC-SHA256 and the AES-128 block cipher are the two primitives under
    everything the script asks of the [cryptography] package.  The
    constructions on top of them (PBKDF2, CBC, PKCS7 padding, the Fernet
    token) are written out below; the primitives themselves are an
    interface. *)

Class Primitives : Type := {
  (** [hmac_sha256 key message] *)
  hmac_sha256 : bytes -> bytes -> bytes;
  (** [aes128_encrypt_block key block] and its inverse *)
  aes128_encrypt_block : bytes -> bytes -> bytes;
  aes128_decrypt_block : bytes -> bytes -> bytes
}.

Definition xor_byte (a b : byte) : byte :=
  byte_of_N (N.lxor (Byte.to_N a) (Byte.to_N b)).

Fixpoint xor_bytes (a b : bytes) : bytes :=
  match a, b with
  | x :: a', y :: b' => xor_byte x y :: xor_bytes a' b'
  | _, _ => []
  end.

(** [n.to_bytes(w, "big")] *)
Fixpoint big_endian (w : nat) (n : N) : bytes :=
  match w with
  | O => []
  | S w' => byte_of_N (N.shiftr n (8 * N.of_nat w')) :: big_endian w' n
  end.

Definition to_bytes (w : nat) (n : N) : result bytes :=
  if n <? 2 ^ (8 * N.of_nat w) then Ok (big_endian w n)
  else Raise OverflowError.

(** [int.from_bytes(b, "big")] *)
Definition from_bytes (b : bytes) : N :=
  fold_left (fun acc x => acc * 256 + Byte.to_N x) b 0.

(** [str.encode()]: UTF-8.  A [string] stands for the code points below
    U+0100 it lists. *)
Definition utf8_char (c : ascii) : bytes :=
  let n := N_of_ascii c in
  if n <? 128 then [byte_of_N n]
  else [byte_of_N (N.lor 192 (N.shiftr n 6)); byte_of_N (N.lor 128 (N.land n 63))].

Fixpoint str_encode (s : string) : bytes :=
  match s with
  | EmptyString => []
  | String c s' => utf8_char c ++ str_encode s'
  end.

Section Crypto.
Context `{Primitives}.

(** *** PBKDF2 with HMAC-SHA256 (RFC 8018, section 5.2) *)

Definition pbkdf2_round (password : bytes) (state : bytes * bytes)
  : bytes * bytes :=
  let u := hmac_sha256 password (fst state) in
  (u, xor_bytes (snd state) u).

(** The block [T_i = U_1 xor U_2 xor ... xor U_c]. *)
Definition pbkdf2_block (password salt : bytes) (c : N) (i : N) : bytes :=
  let u1 := hmac_sha256 password (salt ++ big_endian 4 i) in
  snd (N.iter (c - 1) (pbkdf2_round password) (u1, u1)).

Definition pbkdf2_hmac_sha256 (password salt : bytes) (iterations : N)
    (length : nat) : bytes :=
  let blocks := Nat.div (length + 31) 32 in
  firstn length
    (concat (map (fun i => pbkdf2_block password salt iterations (N.of_nat i))
                 (seq 1 blocks))).

(** [generate_encryption_key] *)
Definition generate_encryption_key (password : string) (salt : bytes) : bytes :=
  urlsafe_b64encode (pbkdf2_hmac_sha256 (str_encode password) salt 100000 32).

(** *** PKCS7 padding to 128-bit blocks *)

Definition pkcs7_pad (data : bytes) : bytes :=
  let pad_size := (16 - length data mod 16)%nat in
  data ++ repeat (byte_of_N (N.of_nat pad_size)) pad_size.

Definition pkcs7_unpad (padded : bytes) : result bytes :=
  let n := length padded in
  if (n =? 0)%nat || negb (n mod 16 =? 0)%nat then Raise ValueError
  else
    let pad_size := N.to_nat (Byte.to_N (List.last padded x00)) in
    if (pad_size =? 0)%nat || (16 <? pad_size)%nat then Raise ValueError
    else if bytes_eqb (skipn (n - pad_size) padded)
                      (repeat (List.last padded x00) pad_size)
    then Ok (firstn (n - pad_size) padded)
    else Raise ValueError.

(** *** AES-128 in CBC mode *)

Fixpoint cbc_encrypt_blocks (fuel : nat) (key prev data : bytes) : bytes :=
  match fuel, data with
  | S fuel', _ :: _ =>
      let c := aes128_encrypt_block key (xor_bytes (firstn 16 data) prev) in
      c ++ cbc_encrypt_blocks fuel' key c (skipn 16 data)
  | _, _ => []
  end.

Definition cbc_encrypt (key iv data : bytes) : bytes :=
  cbc_encrypt_blocks (length data) key iv data.

Fixpoint cbc_decrypt_blocks (fuel : nat) (key prev data : bytes) : bytes :=
  match fuel, data with
  | S fuel', _ :: _ =>
      let c := firstn 16 data in
      xor_bytes (aes128_decrypt_block key c) prev
      ++ cbc_decrypt_blocks fuel' key c (skipn 16 data)
  | _, _ => []
  end.

(** The decryptor refuses an initialisation vector that is not one block
    long, and, at [finalize], data that is not a whole number of blocks. *)
Definition cbc_decrypt (key iv data : bytes) : result bytes :=
  if negb (length iv =? 16)%nat then Raise ValueError
  else if negb (length data mod 16 =? 0)%nat then Raise InvalidToken
  else Ok (cbc_decrypt_blocks (length data) key iv data).

(** *** Fernet *)

Record fernet : Type := mk_fernet {
  _signing_key : bytes;
  _encryption_key : bytes
}.

Definition Fernet (key : bytes) : result fernet :=
  match urlsafe_b64decode key with
  | Raise _ => Raise ValueError
  | Ok k =>
      if (length k =? 32)%nat then Ok (mk_fernet (firstn 16 k) (skipn 16 k))
      else Raise ValueError
  end.

Definition _encrypt_from_parts (f : fernet) (data : bytes) (current_time : N)
    (iv : bytes) : result bytes :=
  let padded_data := pkcs7_pad data in
  let ciphertext := cbc_encrypt (_encryption_key f) iv padded_data in
  let! stamp := to_bytes 8 current_time in
  let basic_parts := x80 :: stamp ++ iv ++ ciphertext in
  let hmac := hmac_sha256 (_signing_key f) basic_parts in
  Ok (urlsafe_b64encode (basic_parts ++ hmac)).

Definition fernet_encrypt (f : fernet) (data : bytes) : M bytes :=
  current_time <- time_time ;;
  iv <- urandom 16 ;;
  lift (_encrypt_from_parts f data current_time iv).

Definition _get_unverified_token_data (token : bytes) : result (N * bytes) :=
  match urlsafe_b64decode token with
  | Raise _ => Raise InvalidToken
  | Ok data =>
      match data with
      | [] => Raise InvalidToken
      | v :: _ =>
          if negb (byte_eqb v x80) then Raise InvalidToken
          else if (length data <? 9)%nat then Raise InvalidToken
          else Ok (from_bytes (firstn 8 (skipn 1 data)), data)
      end
  end.

Definition _verify_signature (f : fernet) (data : bytes) : result unit :=
  let n := (length data - 32)%nat in
  if bytes_eqb (hmac_sha256 (_signing_key f) (firstn n data)) (skipn n data)
  then Ok tt
  else Raise InvalidToken.

(** [_decrypt_data] with [time_info = None]: no time-to-live check. *)
Definition _decrypt_data (f : fernet) (data : bytes) : result bytes :=
  let! _ := _verify_signature f data in
  let iv := firstn 16 (skipn 9 data) in
  let ciphertext := firstn (length data - 32 - 25) (skipn 25 data) in
  let! plaintext_padded := cbc_decrypt (_encryption_key f) iv ciphertext in
  match pkcs7_unpad plaintext_padded with
  | Ok unpadded => Ok unpadded
  | Raise _ => Raise InvalidToken
  end.

Definition fernet_decrypt (f : fernet) (token : bytes) : result bytes :=
  let! (timestamp, data) := _get_unverified_token_data token in
  _decrypt_data f data.

(** [encrypt_file] *)
Definition encrypt_file (file_data key : bytes) : M bytes :=
  f <- lift (Fernet key) ;;
  fernet_encrypt f file_data.

(** [decrypt_file] *)
Definition decrypt_file (encrypted_data key : bytes) : result bytes :=
  let! f := Fernet key in
  fernet_decrypt f encrypted_data.
End Crypto.

(** *** The call of [generate_encryption_key], statement by statement

    The function builds a [PBKDF2HMAC] object and calls its [derive] method.
    Such an object derives once: [derive] marks it used, and on a used
    object it raises [AlreadyFinalized].  The body runs in the world of the
    script like every other call, so that what it reads and what it changes
    there is a matter of proof; [generate_encryption_key] above is the value
    it returns, which the handlers use directly. *)

Record PBKDF2HMAC_object : Type := mk_kdf {
  kdf_length : nat;
  kdf_salt : bytes;
  kdf_iterations : N;
  kdf_used : bool
}.


Section KeyDerivationCall.
Context `{Primitives}.

(** [kdf.derive(key_material)]: the derived bytes and the object as the call
    leaves it. *)
Definition kdf_derive (kdf : PBKDF2HMAC_object) (key_material : bytes)
  : result (bytes * PBKDF2HMAC_object) :=
  if kdf_used kdf then Raise AlreadyFinalized
  else
    Ok (pbkdf2_hmac_sha256 key_material (kdf_salt kdf) (kdf_iterations kdf)
          (kdf_length kdf),
        mk_kdf (kdf_length kdf) (kdf_salt kdf) (kdf_iterations kdf) true).


End KeyDerivationCall.

(** ** The "Send Files" tab *)

(** [generate_share_code]: six calls of [secrets.randbelow(10)], each
    printed with [str] and joined. *)
Definition generate_share_code : M string :=
  parts <- repeatM 6 (d <- randbelow 10 ;; ret (str_of_N d)) ;;
  ret (String.concat "" parts).

(** An element of [uploaded_files]: [file.name] and [file.getvalue()]. *)
Record uploaded_file : Type := mk_upload {
  u_name : string;
  u_value : bytes
}.

Section Handlers.
Context `{Primitives}.

(** The body of [if st.button("Generate Share Code")]. *)
Definition on_generate_share_code (uploaded_files : list uploaded_file)
    (use_encryption : bool) : M unit :=
  share_code <- generate_share_code ;;
  salt <- token_bytes 16 ;;
  let encryption_key := generate_encryption_key share_code salt in
  file_data <- forM uploaded_files (fun file =>
    let data := u_value file in
    data <- (if use_encryption then encrypt_file data encryption_key
             else ret data) ;;
    ret (mk_file (u_name file) data (N.of_nat (length (u_value file)))
                 use_encryption)) ;;
  created <- datetime_now ;;
  now <- datetime_now ;;
  expires <- lift (datetime_add now (timedelta_hours 24)) ;;
  s <- get_state ;;
  set_state
    (mk_session
       (<[share_code := mk_info file_data salt created expires]> (files s))
       (Some share_code) (Some encryption_key) (current_download s)) ;;;
  save_shared_data.

(** ** The "Receive Files" tab *)

(** What the retrieve button reports: [st.success("Files found!")] or one
    of the two [st.error] messages. *)
Inductive retrieve_message : Type :=
| FilesFound
| CodeExpired
| InvalidShareCode.

(** The body of [if st.button("Retrieve Files")]. *)
Definition on_retrieve_files (receive_code : string) : M retrieve_message :=
  s <- get_state ;;
  match files s !! receive_code with
  | Some file_info =>
      now <- datetime_now ;;
      if datetime_gt now (i_expires file_info) then ret CodeExpired
      else
        set_state (mk_session (files s) (share_code s) (encryption_key s)
                              (Some receive_code)) ;;;
        ret FilesFound
  | None => ret InvalidShareCode
  end.

(** What one row of the file list ends in: a download button carrying the
    bytes to serve and the file name, or the decryption error. *)
Inductive row : Type :=
| download_button (data : bytes) (file_name : string)
| decryption_failed.

Definition file_row (code : string) (file_info : info)
    (file_data : file_entry) : row :=
  let data := f_data file_data in
  if f_encrypted file_data then
    let key := generate_encryption_key code (i_salt file_info) in
    match decrypt_file data key with
    | Ok data => download_button data (f_name file_data)
    | Raise _ => decryption_failed
    end
  else download_button data (f_name file_data).

(** The right-hand column: nothing unless [current_download] is set (and
    not the empty string); [KeyError] when the code is no longer in
    [files]. *)
Definition available_files : M (list row) :=
  s <- get_state ;;
  match current_download s with
  | Some code =>
      if String.eqb code "" then ret []
      else
        match files s !! code with
        | Some file_info =>
            ret (map (file_row code file_info) (i_files file_info))
        | None => lift (Raise KeyError)
        end
  | None => ret []
  end.

(** *** ZIP downloads

    An archive is the sequence of [writestr(name, data)] calls made on the
    [ZipFile]; in write mode every call appends an entry, also under a
    name already in the archive.  Decryption errors are not caught on these
    two paths. *)
Definition zip_entry (code : string) (file_info : info)
    (file_data : file_entry) : result (string * bytes) :=
  let data := f_data file_data in
  let! data :=
    (if f_encrypted file_data then
       decrypt_file data (generate_encryption_key code (i_salt file_info))
     else Ok data) in
  Ok (f_name file_data, data).

Definition name_in (selected : list string) (file_data : file_entry) : bool :=
  existsb (String.eqb (f_name file_data)) selected.

(** "Download Selected as ZIP" *)
Definition zip_selected (code : string) (file_info : info)
    (selected : list string) : result (list (string * bytes)) :=
  rmap (zip_entry code file_info)
       (List.filter (name_in selected) (i_files file_info)).

(** "Download All as ZIP" *)
Definition zip_all (code : string) (file_info : info)
  : result (list (string * bytes)) :=
  rmap (zip_entry code file_info) (i_files file_info).

(** ** Cleanup at the end of every run *)

(** [del d[code]] *)
Definition del_item (code : string) (fs : gmap string info)
  : result (gmap string info) :=
  match fs !! code with
  | Some _ => Ok (delete code fs)
  | None => Raise KeyError
  end.

Fixpoint del_items (codes : list string) (fs : gmap string info)
  : result (gmap string info) :=
  match codes with
  | [] => Ok fs
  | code :: codes' => let! fs' := del_item code fs in del_items codes' fs'
  end.

(** The first loop: one clock reading per record.  The records are taken
    in the order of [map_to_list], the script takes them in the order of
    insertion; what is stated of the loop below holds for the readings in
    any order. *)
Fixpoint collect_expired (items : list (string * info)) : M (list string) :=
  match items with
  | [] => ret []
  | (code, file_info) :: items' =>
      now <- datetime_now ;;
      expired_codes <- collect_expired items' ;;
      ret (if datetime_gt now (i_expires file_info)
           then code :: expired_codes else expired_codes)
  end.

Definition cleanup_expired : M unit :=
  s <- get_state ;;
  expired_codes <- collect_expired (map_to_list (files s)) ;;
  fs <- lift (del_items expired_codes (files s)) ;;
  set_state (set_files s fs) ;;;
  save_shared_data.
End Handlers.

(** ** Specification-level functions

    Closed forms and predicates used to state the properties below. *)

(** What [save_shared_data] writes for one file and for one record. *)
Definition json_of_file (file : file_entry) : json_file :=
  mk_json_file (f_name file) (string_of_list_byte (b64encode (f_data file)))
               (f_size file) (f_encrypted file).

Definition json_of_info (entry : info) : json_info :=
  mk_json_info (string_of_list_byte (b64encode (i_salt entry)))
               (isoformat (i_created entry)) (isoformat (i_expires entry))
               (map json_of_file (i_files entry)).

Definition valid_info (entry : info) : bool :=
  valid_datetime (i_created entry) && valid_datetime (i_expires entry).

(** Every record of the dictionary holds datetimes inside the ranges of the
    [datetime] type. *)
Definition valid_files (fs : gmap string info) : Prop :=
  map_Forall (fun _ entry => valid_info entry = true) fs.

Definition info_or (dflt : info) (r : result info) : info :=
  match r with
  | Ok entry => entry
  | Raise _ => dflt
  end.


(** A record whose first payload runs through all 256 byte values. *)
Definition sample_info : info :=
  mk_info
    [ mk_file "all.bin" all_bytes 256 false;
      mk_file "note.txt" (list_byte_of_string "gAAAAAB=") 5 true ]
    (map byte_of_N [7; 250; 0; 13; 99; 128; 255; 1; 2; 3; 4; 5; 6; 8; 9; 10])
    (mk_datetime 2024 2 29 23 59 59 999999)
    (mk_datetime 2024 3 1 23 59 59 0).

Definition sample_world : world :=
  mk_world (mk_session {[ "042137"%string := sample_info ]} None None None)
           None (fun _ => 0) (fun _ => mk_datetime 2024 3 1 0 0 0 0)
           (fun _ => 1709251200).

(** What the constructions need from the two primitives: an HMAC-SHA256 tag
    is 32 bytes long, and under a 16-byte key the block cipher maps a block
    to a block and is inverted by its decryption direction. *)
Class PrimitivesOk `{Primitives} : Prop := {
  hmac_length : forall key msg, length (hmac_sha256 key msg) = 32%nat;
  aes_length : forall key block,
    length key = 16%nat -> length block = 16%nat ->
    length (aes128_encrypt_block key block) = 16%nat;
  aes_inverse : forall key block,
    length key = 16%nat -> length block = 16%nat ->
    aes128_decrypt_block key (aes128_encrypt_block key block) = block
}.

(** The bytes a Fernet token encodes, before the tag is appended. *)
Definition basic_parts (stamp iv ciphertext : bytes) : bytes :=
  x80 :: stamp ++ iv ++ ciphertext.

(** The first [n] readings of a tape, and the tape after them. *)
Fixpoint take_tape {A} (n : nat) (tape : nat -> A) : list A :=
  match n with
  | O => []
  | S n' => tape O :: take_tape n' (tail tape)
  end.

Fixpoint drop_tape {A} (n : nat) (tape : nat -> A) : nat -> A :=
  match n with
  | O => tape
  | S n' => drop_tape n' (tail tape)
  end.

Definition with_entropy (w : world) (e : nat -> N) : world :=
  mk_world (st w) (SHARED_DATA_FILE w) e (clock w) (epoch w).

Definition with_clock (w : world) (c : nat -> datetime) : world :=
  mk_world (st w) (SHARED_DATA_FILE w) (entropy w) c (epoch w).

Definition with_epoch (w : world) (e : nat -> N) : world :=
  mk_world (st w) (SHARED_DATA_FILE w) (entropy w) (clock w) e.

(** The code [generate_share_code] returns on a given random tape. *)
Definition share_code_of (tape : nat -> N) : string :=
  String.concat "" (map (fun r => str_of_N (r mod 10)) (take_tape 6 tape)).

(** The salt drawn right after the code. *)
Definition salt_of (tape : nat -> N) : bytes :=
  map byte_of_N (take_tape 16 (drop_tape 6 tape)).

(** How an uploaded file relates to the entry stored for it. *)
Definition stored_as `{Primitives} (use_encryption : bool) (key : bytes)
    (file : uploaded_file) (entry : file_entry) : Prop :=
  f_name entry = u_name file
  /\ f_size entry = N.of_nat (length (u_value file))
  /\ f_encrypted entry = use_encryption
  /\ if use_encryption then decrypt_file (f_data entry) key = Ok (u_value file)
     else f_data entry = u_value file.

(** A stand-in for the two primitives, enough to show that what is asked of
    them can be met: the "cipher" adds the key to the block bit by bit, the
    "tag" is a 32-byte sum. *)
Definition sum_tag (key msg : bytes) : bytes :=
  big_endian 32 (from_bytes key + from_bytes msg).

#[local] Instance xor_primitives : Primitives := {|
  hmac_sha256 := sum_tag;
  aes128_encrypt_block := fun key block => xor_bytes block key;
  aes128_decrypt_block := fun key block => xor_bytes block key
|}.

(** The code format [^\d{6}$]. *)
Definition is_digit (c : ascii) : bool :=
  match digit_value c with
  | Some _ => true
  | None => false
  end.

Definition is_share_code (s : string) : bool :=
  (String.length s =? 6)%nat && forallb is_digit (list_ascii_of_string s).

Definition with_state (w : world) (s : session_state) : world :=
  mk_world s (SHARED_DATA_FILE w) (entropy w) (clock w) (epoch w).

(** A clock that never runs backwards. *)
Definition monotone (clk : nat -> datetime) : Prop :=
  forall i j, (i <= j)%nat -> datetime_le (clk i) (clk j) = true.

(** A world in which the code 000000 is live and the random source is about
    to produce it again; the clock advances one microsecond per reading. *)
Definition old_info : info :=
  mk_info [ mk_file "old.txt" (list_byte_of_string "first") 5 false ]
          (repeat x00 16)
          (mk_datetime 2024 3 1 9 0 0 0)
          (mk_datetime 2024 3 2 9 0 0 0).

Definition ticking_clock (i : nat) : datetime :=
  mk_datetime 2024 3 1 12 0 0 (N.of_nat i).

Definition collision_world : world :=
  mk_world (mk_session {[ "000000"%string := old_info ]} None None None)
           None (fun _ => 0) ticking_clock (fun _ => 1709294400).

Definition new_upload : uploaded_file :=
  mk_upload "new.txt" (list_byte_of_string "second").

(** A record with two files of the same name. *)
Definition twin_info : info :=
  mk_info [ mk_file "x.txt" (list_byte_of_string "1") 1 false;
            mk_file "x.txt" (list_byte_of_string "2") 1 false ]
          (repeat x00 16)
          (mk_datetime 2024 3 1 9 0 0 0)
          (mk_datetime 2024 3 2 9 0 0 0).

(** A world whose only record expired one second before the first clock
    reading. *)
Definition expired_info : info :=
  mk_info [ mk_file "old.txt" (list_byte_of_string "first") 5 false ]
          (repeat x00 16)
          (mk_datetime 2024 2 29 11 59 59 0)
          (mk_datetime 2024 3 1 11 59 59 0).

Definition expired_world : world :=
  mk_world (mk_session {[ "271828"%string := expired_info ]} None None None)
           None (fun _ => 0) ticking_clock (fun _ => 1709294400).

(** ** AES-128 (FIPS 197)

    The block cipher itself, on blocks and keys of 16 bytes, with the state
    kept column by column.  It is used to run the Fernet construction on
    concrete keys. *)

Module AES128.

Definition xtime (x : N) : N :=
  let y := 2 * x in
  if y <? 256 then y else N.lxor (y - 256) 27.

(** Multiplication in GF(2^8). *)
Fixpoint gmul_loop (n : nat) (a b acc : N) : N :=
  match n with
  | O => acc
  | S n' =>
      gmul_loop n' (xtime a) (N.div2 b) (if N.odd b then N.lxor acc a else acc)
  end.

Definition gmul (a b : N) : N := gmul_loop 8 a b 0.

Fixpoint gpow (n : nat) (a : N) : N :=
  match n with
  | O => 1
  | S n' => gmul (gpow n' a) a
  end.

Definition rotl8 (x k : N) : N :=
  N.land (N.lor (N.shiftl x k) (N.shiftr x (8 - k))) 255.

(** The S-box: the inverse in the field followed by the affine map. *)
Definition sbox_calc (x : N) : N :=
  let i := gpow 254 x in
  N.lxor i (N.lxor (rotl8 i 1) (N.lxor (rotl8 i 2)
    (N.lxor (rotl8 i 3) (N.lxor (rotl8 i 4) 99)))).

Definition octets : list N := map N.of_nat (seq 0 256).

Definition SBOX : list N := Eval vm_compute in map sbox_calc octets.

Fixpoint position (y : N) (l : list N) (i : N) : N :=
  match l with
  | [] => 0
  | x :: l' => if x =? y then i else position y l' (i + 1)
  end.

Definition INV_SBOX : list N :=
  Eval vm_compute in map (fun y => position y SBOX 0) octets.

Definition sub (table : list N) (x : N) : N := nth (N.to_nat x) table 0.

Definition xor_state (a b : list N) : list N :=
  map (fun p => N.lxor (fst p) (snd p)) (combine a b).

Definition permute (idx : list nat) (s : list N) : list N :=
  map (fun i => nth i s 0) idx.

Definition shift_rows : list N -> list N :=
  permute [0; 5; 10; 15; 4; 9; 14; 3; 8; 13; 2; 7; 12; 1; 6; 11]%nat.

Definition inv_shift_rows : list N -> list N :=
  permute [0; 13; 10; 7; 4; 1; 14; 11; 8; 5; 2; 15; 12; 9; 6; 3]%nat.

Definition mix_column (m0 m1 m2 m3 : N) (col : list N) : list N :=
  match col with
  | [a0; a1; a2; a3] =>
      [ N.lxor (gmul m0 a0) (N.lxor (gmul m1 a1) (N.lxor (gmul m2 a2) (gmul m3 a3)));
        N.lxor (gmul m3 a0) (N.lxor (gmul m0 a1) (N.lxor (gmul m1 a2) (gmul m2 a3)));
        N.lxor (gmul m2 a0) (N.lxor (gmul m3 a1) (N.lxor (gmul m0 a2) (gmul m1 a3)));
        N.lxor (gmul m1 a0) (N.lxor (gmul m2 a1) (N.lxor (gmul m3 a2) (gmul m0 a3))) ]
  | _ => col
  end.

Definition mix (m0 m1 m2 m3 : N) (s : list N) : list N :=
  mix_column m0 m1 m2 m3 (firstn 4 s)
  ++ mix_column m0 m1 m2 m3 (firstn 4 (skipn 4 s))
  ++ mix_column m0 m1 m2 m3 (firstn 4 (skipn 8 s))
  ++ mix_column m0 m1 m2 m3 (skipn 12 s).

Definition mix_columns : list N -> list N := mix 2 3 1 1.
Definition inv_mix_columns : list N -> list N := mix 14 11 13 9.

Definition RCON : list N := [1; 2; 4; 8; 16; 32; 64; 128; 27; 54].

(** One step of the key schedule: the next round key. *)
Definition next_round_key (rk : list N) (rc : N) : list N :=
  let w0 := firstn 4 rk in
  let w1 := firstn 4 (skipn 4 rk) in
  let w2 := firstn 4 (skipn 8 rk) in
  let w3 := skipn 12 rk in
  let t := match w3 with
           | [b0; b1; b2; b3] =>
               [N.lxor (sub SBOX b1) rc; sub SBOX b2; sub SBOX b3; sub SBOX b0]
           | _ => w3
           end in
  let w0' := xor_state w0 t in
  let w1' := xor_state w1 w0' in
  let w2' := xor_state w2 w1' in
  let w3' := xor_state w3 w2' in
  w0' ++ w1' ++ w2' ++ w3'.

Fixpoint key_expansion (rk : list N) (rcs : list N) : list (list N) :=
  match rcs with
  | [] => [rk]
  | rc :: rcs' => rk :: key_expansion (next_round_key rk rc) rcs'
  end.

Definition cipher (key block : list N) : list N :=
  match key_expansion key RCON with
  | rk0 :: rks =>
      let round (s rk : list N) :=
        xor_state (mix_columns (shift_rows (map (sub SBOX) s))) rk in
      let s := fold_left round (firstn 9 rks) (xor_state block rk0) in
      xor_state (shift_rows (map (sub SBOX) s)) (List.last rks [])
  | [] => block
  end.

Definition inv_cipher (key block : list N) : list N :=
  match key_expansion key RCON with
  | rk0 :: rks =>
      let round (s rk : list N) :=
        inv_mix_columns
          (xor_state (map (sub INV_SBOX) (inv_shift_rows s)) rk) in
      let s := fold_left round (rev (firstn 9 rks))
                 (xor_state block (List.last rks [])) in
      xor_state (map (sub INV_SBOX) (inv_shift_rows s)) rk0
  | [] => block
  end.

Definition encrypt_block (key block : bytes) : bytes :=
  map byte_of_N (cipher (map Byte.to_N key) (map Byte.to_N block)).

Definition decrypt_block (key block : bytes) : bytes :=
  map byte_of_N (inv_cipher (map Byte.to_N key) (map Byte.to_N block)).

End AES128.

(** The primitives with AES-128 as the block cipher, for a given tag
    function. *)
Definition aes_primitives (tag : bytes -> bytes -> bytes) : Primitives := {|
  hmac_sha256 := tag;
  aes128_encrypt_block := AES128.encrypt_block;
  aes128_decrypt_block := AES128.decrypt_block
|}.

(** Two Fernet keys with the same signing half and different encryption
    halves. *)
Definition fernet_key_1 : bytes :=
  list_byte_of_string "cw_0x689RpI-jtRR7oE8h_eQsKImvJapLeSbXpwF4e4=".

Definition fernet_key_2 : bytes :=
  list_byte_of_string "cw_0x689RpI-jtRR7oE8hwAAAAAAAAAAAAAAAAAAAF8=".

Definition hello : bytes := list_byte_of_string "hello".

Definition counting_iv : bytes := map byte_of_N (map N.of_nat (seq 0 16)).

Definition not_hello : bytes :=
  map byte_of_N [241; 73; 239; 99; 126; 16; 224; 51; 28; 43; 37; 3; 110; 116; 92].

(** The tag of the published test vector of the Fernet specification. *)
Definition vector_tag : bytes :=
  map byte_of_N
    [197; 255; 144; 149; 245; 211; 143; 154; 184; 110; 85; 67; 224; 38; 134;
     240; 59; 62; 201; 113; 185; 171; 71; 174; 35; 86; 106; 84; 224; 140; 42; 12].

(** The world of the test vector: the epoch clock reads 499162800 and the
    random source counts 0, 1, 2, ... *)
Definition vector_world : world :=
  mk_world (mk_session ∅ None None None) None
           (fun i => N.of_nat i) ticking_clock (fun _ => 499162800).

(** The two keys as [Fernet] splits them. *)
Definition vector_fernet_1 : fernet :=
  Eval vm_compute in
    match Fernet fernet_key_1 with
    | Ok f => f
    | Raise _ => mk_fernet [] []
    end.

Definition vector_fernet_2 : fernet :=
  Eval vm_compute in
    match Fernet fernet_key_2 with
    | Ok f => f
    | Raise _ => mk_fernet [] []
    end.

(** A third key: thirty-two zero bytes. *)
Definition fernet_key_0 : bytes :=
  list_byte_of_string "AAAAAAAAAAAAAAAAAAAAAAAAAAAAAAAAAAAAAAAAAAA=".

Definition vector_fernet_0 : fernet :=
  Eval vm_compute in
    match Fernet fernet_key_0 with
    | Ok f => f
    | Raise _ => mk_fernet [] []
    end.

(** ** One run of the script

    Streamlit executes [main.py] from top to bottom on every interaction.
    The widgets hand the script their current values; at most one button
    reports a click in a run, and a button that the run does not reach is
    not on the page and cannot have been clicked.  [st.rerun()] ends the run
    where it stands.  An exception ends the run as well. *)

Inductive button : Type :=
| GenerateShareCode
| GenerateNewCode
| RetrieveFiles
| DownloadSelectedAsZip
| DownloadAllAsZip.

Definition button_eqb (a b : button) : bool :=
  match a, b with
  | GenerateShareCode, GenerateShareCode
  | GenerateNewCode, GenerateNewCode
  | RetrieveFiles, RetrieveFiles
  | DownloadSelectedAsZip, DownloadSelectedAsZip
  | DownloadAllAsZip, DownloadAllAsZip => true
  | _, _ => false
  end.

Record widgets : Type := mk_widgets {
  uploaded_files : list uploaded_file;   (* st.file_uploader *)
  use_encryption : bool;                 (* st.checkbox *)
  receive_code : string;                 (* st.text_input *)
  selected : list string;                (* st.multiselect *)
  clicked : option button
}.

(** [st.button(label)] *)
Definition st_button (ui : widgets) (b : button) : bool :=
  match clicked ui with
  | Some b' => button_eqb b b'
  | None => false
  end.

(** What a run puts on the page, as far as it depends on the records: the
    share code shown in the code box, the message of the retrieve button,
    the rows of the file list and the archives offered for download. *)
Record page : Type := mk_page {
  shown_code : option string;
  message : option retrieve_message;
  rows : list row;
  selected_zip : option (list (string * bytes));
  all_zip : option (list (string * bytes));
  rerun : bool
}.

(** Truth value of a string-or-None session entry. *)
Definition truthy (o : option string) : option string :=
  match o with
  | Some s => if String.eqb s "" then None else Some s
  | None => None
  end.

Section Script.
Context `{Primitives}.

(** Left column of the first tab. *)
Definition send_column (ui : widgets) : M unit :=
  match uploaded_files ui with
  | [] => ret tt
  | _ :: _ =>
      if st_button ui GenerateShareCode
      then on_generate_share_code (uploaded_files ui) (use_encryption ui)
      else ret tt
  end.

(** Right column of the first tab: the code box and "Generate New Code".
    The QR image drawn under the code box is rendering only and is left
    out. *)
Definition share_code_column (ui : widgets) : M (option string * bool) :=
  s <- get_state ;;
  match truthy (share_code s) with
  | Some code =>
      if st_button ui GenerateNewCode then
        set_state (mk_session (files s) None (encryption_key s)
                              (current_download s)) ;;;
        ret (Some code, true)
      else ret (Some code, false)
  | None => ret (None, false)
  end.

(** Left column of the second tab. *)
Definition receive_column (ui : widgets) : M (option retrieve_message) :=
  if st_button ui RetrieveFiles then
    m <- on_retrieve_files (receive_code ui) ;; ret (Some m)
  else ret None.

(** Right column of the second tab: the file list and, for a record with
    more than one file, the two ZIP downloads. *)
Definition download_column (ui : widgets)
  : M (list row * option (list (string * bytes))
       * option (list (string * bytes))) :=
  s <- get_state ;;
  match truthy (current_download s) with
  | Some code =>
      match files s !! code with
      | None => lift (Raise KeyError)
      | Some file_info =>
          let rows := map (file_row code file_info) (i_files file_info) in
          if (1 <? length (i_files file_info))%nat then
            sel <- (match selected ui with
                    | _ :: _ =>
                        if st_button ui DownloadSelectedAsZip then
                          z <- lift (zip_selected code file_info (selected ui)) ;;
                          ret (Some z)
                        else ret None
                    | [] => ret None
                    end) ;;
            all <- (if st_button ui DownloadAllAsZip then
                      z <- lift (zip_all code file_info) ;; ret (Some z)
                    else ret None) ;;
            ret (rows, sel, all)
          else ret (rows, None, None)
      end
  | None => ret ([], None, None)
  end.

(** The script. *)
Definition main (ui : widgets) : M page :=
  load_shared_data ;;;
  send_column ui ;;;
  shown <- share_code_column ui ;;
  if snd shown then ret (mk_page (fst shown) None [] None None true)
  else
    msg <- receive_column ui ;;
    downloads <- download_column ui ;;
    cleanup_expired ;;;
    ret (mk_page (fst shown) msg (fst (fst downloads)) (snd (fst downloads))
                 (snd downloads) false).

End Script.

(** A file on disk with one record whose salt is a single base64
    character, beside a well-formed record. *)
Definition bad_salt_entry : json_info :=
  mk_json_info "A" "2024-03-01T09:00:00" "2024-03-02T09:00:00" [].

Definition bad_salt_document : gmap string json_info :=
  <[ "314159"%string := bad_salt_entry ]>
    (json_of_info <$> {[ "042137"%string := sample_info ]}).

Definition bad_salt_world : world :=
  mk_world (mk_session ∅ None None None) (Some bad_salt_document)
           (fun _ => 0) ticking_clock (fun _ => 1709294400).

Definition idle : widgets := mk_widgets [] true "" [] None.

(** The expired world, seen from a session that retrieved the code while it
    was live. *)
Definition viewing_world : world :=
  mk_world (mk_session {[ "271828"%string := expired_info ]} None None
                       (Some "271828"%string))
           None (fun _ => 0) ticking_clock (fun _ => 1709294400).

(** A record with one plain file and one entry marked encrypted whose data
    is not a token. *)
Definition damaged_info : info :=
  mk_info [ mk_file "a.txt" (list_byte_of_string "plain") 5 false;
            mk_file "b.txt" (list_byte_of_string "not a token") 5 true ]
          (repeat x00 16)
          (mk_datetime 2024 3 1 9 0 0 0)
          (mk_datetime 2024 3 2 9 0 0 0).

(** The records a run starts from: those of the file when there is one, those
    the session already holds otherwise. *)
Definition starts_from (w : world) (fs : gmap string info) : Prop :=
  SHARED_DATA_FILE w = Some (json_of_info <$> fs)
  \/ (SHARED_DATA_FILE w = None /\ files (st w) = fs).

(** The widgets of a sender who clicks "Generate Share Code", and of a
    receiver who enters a code and clicks "Retrieve Files". *)
Definition sender_widgets (uploads : list uploaded_file) (encrypt : bool)
  : widgets :=
  mk_widgets uploads encrypt "" [] (Some GenerateShareCode).

Definition receiver_widgets (code : string) : widgets :=
  mk_widgets [] true code [] (Some RetrieveFiles).

(** A session that has just created the share 000000 and still shows its
    code. *)
Definition showing_world : world :=
  mk_world (mk_session {[ "000000"%string := old_info ]}
                       (Some "000000"%string) (Some []) None)
           None (fun _ => 0) ticking_clock (fun _ => 1709294400).

Definition new_code_widgets : widgets :=
  mk_widgets [] true "" [] (Some GenerateNewCode).

(** The tape that yields a given list of readings, then zeros. *)
Definition tape_of (readings : list N) : nat -> N :=
  fun i => nth i readings 0.
(** * Properties *)

(** ** Bytes *)

Lemma byte_of_to_N (b : byte) : byte_of_N (Byte.to_N b) = b.
Proof. destruct b; reflexivity. Qed.

Lemma to_N_lt (b : byte) : Byte.to_N b < 256.
Proof. pose proof (Byte.to_N_bounded b). lia. Qed.

Lemma to_of_N_small (n : N) : n < 256 -> Byte.to_N (byte_of_N n) = n.
Proof.
  intros Hn. unfold byte_of_N. rewrite N.mod_small by exact Hn.
  destruct (Byte.of_N n) as [b|] eqn:E.
  - now apply Byte.to_of_N.
  - apply Byte.of_N_None_iff in E. lia.
Qed.

Lemma byte_of_N_inj (n m : N) :
  n < 256 -> m < 256 -> byte_of_N n = byte_of_N m -> n = m.
Proof.
  intros Hn Hm E. rewrite <- (to_of_N_small n Hn), <- (to_of_N_small m Hm).
  now rewrite E.
Qed.

Lemma byte_eqb_eq (a b : byte) : byte_eqb a b = true <-> a = b.
Proof.
  split; [apply Byte.byte_dec_bl | apply Byte.byte_dec_lb].
Qed.

Lemma byte_eqb_refl (a : byte) : byte_eqb a a = true.
Proof. now apply byte_eqb_eq. Qed.

Lemma byte_eqb_neq (a b : byte) : byte_eqb a b = false <-> a <> b.
Proof.
  split.
  - intros H E. apply byte_eqb_eq in E. congruence.
  - intros H. destruct (byte_eqb a b) eqn:E; [|reflexivity].
    apply byte_eqb_eq in E. contradiction.
Qed.

Lemma bytes_eqb_eq (a b : bytes) : bytes_eqb a b = true <-> a = b.
Proof.
  revert b. induction a as [|x a IH]; intros [|y b]; simpl; split;
    try congruence; try reflexivity.
  - intros H. apply andb_true_iff in H as [H1 H2].
    apply byte_eqb_eq in H1. apply IH in H2. congruence.
  - intros [= -> ->]. apply andb_true_iff. split.
    + apply byte_eqb_refl.
    + now apply IH.
Qed.

Lemma bytes_eqb_refl (a : bytes) : bytes_eqb a a = true.
Proof. now apply bytes_eqb_eq. Qed.

(** ** base64 *)

Example b64encode_hello :
  b64encode (list_byte_of_string "hello") = list_byte_of_string "aGVsbG8=".
Proof. reflexivity. Qed.

Example b64decode_hello :
  b64decode_str "aGVsbG8=" = Ok (list_byte_of_string "hello").
Proof. reflexivity. Qed.

Example b64decode_skips_garbage :
  b64decode_str "aGVs bG8=!" = Ok (list_byte_of_string "hello").
Proof. reflexivity. Qed.

Example b64decode_incorrect_padding :
  b64decode_str "aGVsbG8" = Raise BinasciiError.
Proof. reflexivity. Qed.

(** The two conversion tables are inverse on the 64 sextet values. *)

Lemma sextet_cases (P : N -> Prop) :
  Forall P (map N.of_nat (seq 0 64)) -> forall i, i < 64 -> P i.
Proof.
  intros HF i Hi. rewrite Forall_forall in HF. apply HF.
  apply list_elem_of_In, in_map_iff. exists (N.to_nat i). split; [lia|].
  apply in_seq. lia.
Qed.

Lemma table_a2b_b2a (i : N) :
  i < 64 -> table_a2b_base64 (table_b2a_base64 i) = Some i.
Proof.
  revert i. apply sextet_cases.
  repeat (apply Forall_cons; split; [reflexivity|]). apply Forall_nil_2.
Qed.

Lemma table_b2a_not_pad (i : N) :
  i < 64 -> byte_eqb (table_b2a_base64 i) BASE64_PAD = false.
Proof.
  revert i. apply sextet_cases.
  repeat (apply Forall_cons; split; [reflexivity|]). apply Forall_nil_2.
Qed.

Lemma table_b2a_ascii (i : N) : is_ascii_byte (table_b2a_base64 i) = true.
Proof.
  destruct (N.ltb_spec i 64) as [Hi|Hi].
  - revert i Hi. apply sextet_cases.
    repeat (apply Forall_cons; split; [reflexivity|]). apply Forall_nil_2.
  - unfold table_b2a_base64. rewrite nth_overflow; [reflexivity|].
    change (length b64_alphabet) with 64%nat. lia.
Qed.

(** Shifts, masks and disjoint [lor] as arithmetic. *)

Lemma lor_shiftl_small (x y k : N) :
  y < 2 ^ k -> N.lor (N.shiftl x k) y = x * 2 ^ k + y.
Proof.
  intros Hy. rewrite <- N.lxor_lor, <- N.add_nocarry_lxor, N.shiftl_mul_pow2;
    try reflexivity.
  all: apply N.bits_inj; intros n; rewrite N.land_spec, N.bits_0.
  all: destruct (N.ltb_spec n k) as [Hn|Hn].
  all: try (rewrite N.shiftl_spec_low by exact Hn; reflexivity).
  all: rewrite <- (N.mod_small y (2 ^ k)) by exact Hy.
  all: rewrite N.mod_pow2_bits_high by exact Hn; apply andb_false_r.
Qed.

Lemma land_mask (x k : N) : N.land x (N.ones k) = x mod 2 ^ k.
Proof. apply N.land_ones. Qed.

Ltac Zify.zify_post_hook ::= Z.to_euclidean_division_equations.

Ltac bits_to_arith :=
  change 3 with (N.ones 2); change 15 with (N.ones 4);
  change 63 with (N.ones 6);
  rewrite ?land_mask, ?N.shiftr_div_pow2;
  repeat (rewrite lor_shiftl_small; [| solve [bits_to_arith; lia]]);
  rewrite ?N.shiftl_mul_pow2.

Lemma sextet0_lt (a : N) :
    a < 256 ->
    N.shiftr a 2 < 64.
Proof. intros. bits_to_arith. lia. Qed.

Lemma sextet1_lt (a b : N) :
    a < 256 ->
    b < 256 ->
    N.lor (N.shiftl (N.land a 3) 4) (N.shiftr b 4) < 64.
Proof. intros. bits_to_arith. lia. Qed.

Lemma sextet1_tail_lt (a : N) :
    a < 256 ->
    N.shiftl (N.land a 3) 4 < 64.
Proof. intros. bits_to_arith. lia. Qed.

Lemma sextet2_lt (b c : N) :
    b < 256 ->
    c < 256 ->
    N.lor (N.shiftl (N.land b 15) 2) (N.shiftr c 6) < 64.
Proof. intros. bits_to_arith. lia. Qed.

Lemma sextet2_tail_lt (b : N) :
    b < 256 ->
    N.shiftl (N.land b 15) 2 < 64.
Proof. intros. bits_to_arith. lia. Qed.

Lemma sextet3_lt (c : N) :
    c < 256 ->
    N.land c 63 < 64.
Proof. intros. bits_to_arith. lia. Qed.

Lemma octet0_eq (a b : N) :
    a < 256 ->
    b < 256 ->
    N.lor (N.shiftl (N.shiftr a 2) 2)
          (N.shiftr (N.lor (N.shiftl (N.land a 3) 4) (N.shiftr b 4)) 4) = a.
Proof. intros. bits_to_arith. lia. Qed.

Lemma octet0_tail_eq (a : N) :
    a < 256 ->
    N.lor (N.shiftl (N.shiftr a 2) 2)
          (N.shiftr (N.shiftl (N.land a 3) 4) 4) = a.
Proof. intros. bits_to_arith. lia. Qed.

Lemma octet1_eq (a b c : N) :
    a < 256 ->
    b < 256 ->
    c < 256 ->
    N.lor (N.shiftl (N.land (N.lor (N.shiftl (N.land a 3) 4) (N.shiftr b 4)) 15) 4)
          (N.shiftr (N.lor (N.shiftl (N.land b 15) 2) (N.shiftr c 6)) 2) = b.
Proof. intros. bits_to_arith. lia. Qed.

Lemma octet1_tail_eq (a b : N) :
    a < 256 ->
    b < 256 ->
    N.lor (N.shiftl (N.land (N.lor (N.shiftl (N.land a 3) 4) (N.shiftr b 4)) 15) 4)
          (N.shiftr (N.shiftl (N.land b 15) 2) 2) = b.
Proof. intros. bits_to_arith. lia. Qed.

Lemma octet2_eq (b c : N) :
    b < 256 ->
    c < 256 ->
    N.lor (N.shiftl (N.land (N.lor (N.shiftl (N.land b 15) 2) (N.shiftr c 6)) 3) 6)
          (N.land c 63) = c.
Proof. intros. bits_to_arith. lia. Qed.


(** One step of the decoder on an alphabet character, by quad position. *)

Lemma a2b_step0 i rest lc pads acc :
  i < 64 ->
  a2b_base64_loop (table_b2a_base64 i :: rest) 0 lc pads acc
  = a2b_base64_loop rest 1 i 0 acc.
Proof.
  intros Hi. cbn [a2b_base64_loop].
  now rewrite table_b2a_not_pad, table_a2b_b2a by exact Hi.
Qed.

Lemma a2b_step1 i rest lc pads acc :
  i < 64 ->
  a2b_base64_loop (table_b2a_base64 i :: rest) 1 lc pads acc
  = a2b_base64_loop rest 2 (N.land i 15) 0
      (acc ++ [byte_of_N (N.lor (N.shiftl lc 2) (N.shiftr i 4))]).
Proof.
  intros Hi. cbn [a2b_base64_loop].
  now rewrite table_b2a_not_pad, table_a2b_b2a by exact Hi.
Qed.

Lemma a2b_step2 i rest lc pads acc :
  i < 64 ->
  a2b_base64_loop (table_b2a_base64 i :: rest) 2 lc pads acc
  = a2b_base64_loop rest 3 (N.land i 3) 0
      (acc ++ [byte_of_N (N.lor (N.shiftl lc 4) (N.shiftr i 2))]).
Proof.
  intros Hi. cbn [a2b_base64_loop].
  now rewrite table_b2a_not_pad, table_a2b_b2a by exact Hi.
Qed.

Lemma a2b_step3 i rest lc pads acc :
  i < 64 ->
  a2b_base64_loop (table_b2a_base64 i :: rest) 3 lc pads acc
  = a2b_base64_loop rest 0 0 0
      (acc ++ [byte_of_N (N.lor (N.shiftl lc 6) i)]).
Proof.
  intros Hi. cbn [a2b_base64_loop].
  now rewrite table_b2a_not_pad, table_a2b_b2a by exact Hi.
Qed.

(** Induction on a byte string three bytes at a time. *)
Lemma bytes_ind3 (P : bytes -> Prop) :
  P [] -> (forall a, P [a]) -> (forall a b, P [a; b]) ->
  (forall a b c rest, P rest -> P (a :: b :: c :: rest)) ->
  forall data, P data.
Proof.
  intros H0 H1 H2 H3.
  assert (H : forall data, P data /\ (forall a, P (a :: data))
                           /\ (forall a b, P (a :: b :: data))).
  { induction data as [|x data (IH0 & IH1 & IH2)]; auto. }
  intros data. apply H.
Qed.

Lemma a2b_b2a_loop (data acc : bytes) :
  a2b_base64_loop (b2a_base64 data) 0 0 0 acc = Ok (acc ++ data).
Proof.
  revert acc. induction data as [|a|a b|a b c rest IH] using bytes_ind3;
    intros acc.
  - cbn. now rewrite app_nil_r.
  - pose proof (to_N_lt a) as Ha.
    cbn [b2a_base64].
    rewrite a2b_step0 by now apply sextet0_lt.
    rewrite a2b_step1 by now apply sextet1_tail_lt.
    rewrite octet0_tail_eq, byte_of_to_N by exact Ha.
    reflexivity.
  - pose proof (to_N_lt a) as Ha. pose proof (to_N_lt b) as Hb.
    cbn [b2a_base64].
    rewrite a2b_step0 by now apply sextet0_lt.
    rewrite a2b_step1 by now apply sextet1_lt.
    rewrite a2b_step2 by now apply sextet2_tail_lt.
    rewrite octet0_eq, octet1_tail_eq, !byte_of_to_N by assumption.
    cbn. now rewrite <- app_assoc.
  - pose proof (to_N_lt a) as Ha. pose proof (to_N_lt b) as Hb.
    pose proof (to_N_lt c) as Hc.
    cbn [b2a_base64].
    rewrite a2b_step0 by now apply sextet0_lt.
    rewrite a2b_step1 by now apply sextet1_lt.
    rewrite a2b_step2 by now apply sextet2_lt.
    rewrite a2b_step3 by now apply sextet3_lt.
    rewrite octet0_eq, octet1_eq, octet2_eq, !byte_of_to_N by assumption.
    rewrite IH, <- !app_assoc. reflexivity.
Qed.

Lemma b64decode_b64encode (data : bytes) :
  b64decode (b64encode data) = Ok data.
Proof. apply (a2b_b2a_loop data []). Qed.

Lemma b2a_base64_ascii (data : bytes) :
  forallb is_ascii_byte (b2a_base64 data) = true.
Proof.
  induction data as [|a|a b|a b c rest IH] using bytes_ind3;
    cbn [b2a_base64 forallb]; rewrite ?table_b2a_ascii, ?IH; reflexivity.
Qed.

(** What [save_shared_data] writes for a byte string, [load_shared_data]
    reads back. *)
Lemma b64_text_roundtrip (data : bytes) :
  exists s, bytes_decode (b64encode data) = Ok s /\ b64decode_str s = Ok data.
Proof.
  exists (string_of_list_byte (b64encode data)).
  unfold bytes_decode, b64decode_str, str_encode_ascii, b64encode.
  rewrite list_byte_of_string_of_list_byte, b2a_base64_ascii. cbn [rbind].
  split; [reflexivity | apply b64decode_b64encode].
Qed.

Lemma urlsafe_translation_table (i : N) :
  urlsafe_decode_translation (urlsafe_encode_translation (table_b2a_base64 i))
  = table_b2a_base64 i.
Proof.
  destruct (N.ltb_spec i 64) as [Hi|Hi].
  - revert i Hi. apply sextet_cases.
    repeat (apply Forall_cons; split; [reflexivity|]). apply Forall_nil_2.
  - unfold table_b2a_base64. rewrite nth_overflow; [reflexivity|].
    change (length b64_alphabet) with 64%nat. lia.
Qed.

Lemma urlsafe_translation_b2a (data : bytes) :
  map urlsafe_decode_translation (map urlsafe_encode_translation (b2a_base64 data))
  = b2a_base64 data.
Proof.
  induction data as [|a|a b|a b c rest IH] using bytes_ind3;
    cbn [b2a_base64 map]; rewrite ?urlsafe_translation_table, ?IH;
    reflexivity.
Qed.

Lemma urlsafe_b64decode_b64encode (data : bytes) :
  urlsafe_b64decode (urlsafe_b64encode data) = Ok data.
Proof.
  unfold urlsafe_b64decode, urlsafe_b64encode, b64encode.
  rewrite urlsafe_translation_b2a. apply b64decode_b64encode.
Qed.

(** ** datetime *)

Example isoformat_micro :
  isoformat (mk_datetime 2024 3 9 7 5 1 42) = "2024-03-09T07:05:01.000042"%string.
Proof. reflexivity. Qed.

Example isoformat_whole_second :
  isoformat (mk_datetime 2024 12 31 23 59 59 0) = "2024-12-31T23:59:59"%string.
Proof. reflexivity. Qed.

Example fromisoformat_micro :
  fromisoformat "2024-03-09T07:05:01.000042" = Ok (mk_datetime 2024 3 9 7 5 1 42).
Proof. reflexivity. Qed.

Example fromisoformat_bad_day :
  fromisoformat "2023-02-29T07:05:01" = Raise ValueError.
Proof. reflexivity. Qed.

Ltac split_andb :=
  repeat match goal with
  | H : _ && _ = true |- _ => apply andb_true_iff in H; destruct H
  | H : (_ <=? _) = true |- _ => apply N.leb_le in H
  | H : (_ <? _) = true |- _ => apply N.ltb_lt in H
  | H : (_ =? _) = true |- _ => apply N.eqb_eq in H
  | H : (_ <=? _) = false |- _ => apply N.leb_gt in H
  | H : (_ <? _) = false |- _ => apply N.ltb_ge in H
  | H : (_ =? _) = false |- _ => apply N.eqb_neq in H
  end.

Lemma digit_value_char (d : N) : d < 10 -> digit_value (digit_char d) = Some d.
Proof.
  intros Hd. unfold digit_value, digit_char.
  rewrite N_ascii_embedding by lia.
  replace ((48 <=? 48 + d) && (48 + d <=? 57)) with true.
  - f_equal. lia.
  - symmetry. apply andb_true_iff. split; apply N.leb_le; lia.
Qed.

Lemma append_String (c : ascii) (s r : string) :
  (String c s +:+ r = String c (s +:+ r))%string.
Proof. reflexivity. Qed.

Lemma append_empty_l (r : string) : ("" +:+ r = r)%string.
Proof. reflexivity. Qed.

Lemma parse_digits_digits (w : nat) (n acc : N) (rest : string) :
  n < 10 ^ N.of_nat w ->
  parse_digits w (digits w n +:+ rest) acc
  = Ok (acc * 10 ^ N.of_nat w + n, rest).
Proof.
  revert n acc. induction w as [|w IH]; intros n acc Hn.
  - cbn in *. do 2 f_equal. lia.
  - cbn [digits]. rewrite append_String. cbn [parse_digits].
    assert (Hpow : 10 ^ N.of_nat (S w) = 10 * 10 ^ N.of_nat w).
    { rewrite Nat2N.inj_succ, N.pow_succ_r'. reflexivity. }
    assert (Hpos : 0 < 10 ^ N.of_nat w) by (apply N.neq_0_lt_0, N.pow_nonzero; lia).
    rewrite Hpow in Hn |- *.
    rewrite digit_value_char.
    + rewrite IH by (apply N.mod_lt; lia).
      do 2 f_equal.
      pose proof (N.div_mod n (10 ^ N.of_nat w)). nia.
    + apply N.Div0.div_lt_upper_bound. lia.
Qed.

Lemma parse_digits_digits_end (w : nat) (n : N) :
  n < 10 ^ N.of_nat w ->
  parse_digits w (digits w n) 0 = Ok (n, EmptyString).
Proof.
  intros Hn. pose proof (parse_digits_digits w n 0 EmptyString Hn) as H.
  revert H. replace (digits w n +:+ "")%string with (digits w n); [trivial|].
  generalize (digits w n). intros s.
  induction s as [|c s IHs]; [reflexivity|].
  now rewrite append_String, <- IHs.
Qed.

Lemma zero_padded_small (w : nat) (n : N) :
  n < 10 ^ N.of_nat w -> zero_padded w n = digits w n.
Proof.
  intros Hn. unfold zero_padded. apply N.ltb_lt in Hn. now rewrite Hn.
Qed.

Lemma length_digits (w : nat) (n : N) : String.length (digits w n) = w.
Proof. revert n. induction w as [|w IH]; intros n; cbn; [|rewrite IH]; reflexivity. Qed.

Lemma parse_fraction_isoformat (us : N) :
  us < 1000000 ->
  parse_fraction (if us =? 0 then EmptyString
                  else "." +:+ digits 6 us) = Ok us.
Proof.
  intros Hus. destruct (N.eqb_spec us 0) as [->|Hne]; [reflexivity|].
  rewrite append_String, append_empty_l.
  cbn [parse_fraction Ascii.eqb Bool.eqb].
  rewrite length_digits. cbn [Nat.eqb].
  now rewrite parse_digits_digits_end.
Qed.

Lemma days_in_month_le (y m : N) : days_in_month y m <= 31.
Proof.
  unfold days_in_month.
  repeat match goal with |- context [if ?b then _ else _] => destruct b end;
    lia.
Qed.

Lemma days_in_month_ge (y m : N) : 28 <= days_in_month y m.
Proof.
  unfold days_in_month.
  repeat match goal with |- context [if ?b then _ else _] => destruct b end;
    lia.
Qed.

(** Reading back what [isoformat] wrote gives the same datetime, to the
    microsecond. *)
Lemma fromisoformat_isoformat (t : datetime) :
  valid_datetime t = true -> fromisoformat (isoformat t) = Ok t.
Proof.
  destruct t as [y m d h mi s us]. unfold valid_datetime. cbn [year month day
    hour minute second microsecond]. intros Hv.
  assert (Hnew : datetime_new y m d h mi s us
                 = Ok (mk_datetime y m d h mi s us)).
  { unfold datetime_new. now rewrite Hv. }
  unfold valid_date, valid_time, MINYEAR, MAXYEAR in Hv.
  split_andb. pose proof (days_in_month_le y m).
  unfold isoformat, fromisoformat. cbn [year month day hour minute second
    microsecond].
  rewrite !zero_padded_small by (cbn; lia).
  repeat (rewrite parse_digits_digits by (cbn; lia);
          rewrite ?append_String, ?append_empty_l;
          cbn [rbind expect_char Ascii.eqb Bool.eqb]).
  rewrite parse_fraction_isoformat by assumption. cbn [rbind].
  rewrite !N.mul_0_l, !N.add_0_l. exact Hnew.
Qed.

(** ** Persistence *)

Lemma rmap_ok_map {A B} (f : A -> result B) (g : A -> B) (l : list A) :
  Forall (fun a => f a = Ok (g a)) l -> rmap f l = Ok (map g l).
Proof.
  induction 1 as [|a l Ha _ IH]; [reflexivity|].
  cbn [rmap map]. now rewrite Ha, IH.
Qed.

Lemma map_rmap_ok {A B} (f : A -> result B) (g : A -> B) (m : gmap string A) :
  (forall k a, m !! k = Some a -> f a = Ok (g a)) ->
  map_rmap f m = Ok (g <$> m).
Proof.
  intros Hf. unfold map_rmap.
  rewrite (rmap_ok_map _ (prod_map id g)).
  - cbn [rbind]. f_equal.
    change (map (prod_map id g) (map_to_list m))
      with (prod_map id g <$> map_to_list m).
    now rewrite list_to_map_fmap, list_to_map_to_list.
  - apply Forall_forall. intros [k a] Hin.
    apply elem_of_map_to_list in Hin. cbn. now rewrite (Hf k a Hin).
Qed.

Lemma bytes_decode_b64encode (data : bytes) :
  bytes_decode (b64encode data) = Ok (string_of_list_byte (b64encode data)).
Proof. unfold bytes_decode, b64encode. now rewrite b2a_base64_ascii. Qed.

Lemma b64decode_str_b64encode (data : bytes) :
  b64decode_str (string_of_list_byte (b64encode data)) = Ok data.
Proof.
  unfold b64decode_str, str_encode_ascii, b64encode.
  rewrite list_byte_of_string_of_list_byte, b2a_base64_ascii. cbn [rbind].
  apply b64decode_b64encode.
Qed.

Lemma save_file_ok (file : file_entry) : save_file file = Ok (json_of_file file).
Proof. unfold save_file. now rewrite bytes_decode_b64encode. Qed.

Lemma save_info_ok (entry : info) : save_info entry = Ok (json_of_info entry).
Proof.
  unfold save_info. rewrite bytes_decode_b64encode. cbn [rbind].
  rewrite (rmap_ok_map _ json_of_file); [reflexivity|].
  apply Forall_forall. intros file _. apply save_file_ok.
Qed.

Lemma load_file_json (file : file_entry) : load_file (json_of_file file) = Ok file.
Proof.
  unfold load_file, json_of_file. cbn [j_data j_name j_size j_encrypted].
  rewrite b64decode_str_b64encode. now destruct file.
Qed.

Lemma load_info_json (entry : info) :
  valid_info entry = true -> load_info (json_of_info entry) = Ok entry.
Proof.
  intros Hv. apply andb_true_iff in Hv as [Hc He].
  unfold load_info, json_of_info. cbn [j_salt j_created j_expires j_files].
  rewrite b64decode_str_b64encode, !fromisoformat_isoformat by assumption.
  cbn [rbind].
  assert (Hfiles : rmap load_file (map json_of_file (i_files entry))
                   = Ok (i_files entry)).
  { induction (i_files entry) as [|file l IH]; [reflexivity|].
    cbn [map rmap]. now rewrite load_file_json, IH. }
  rewrite Hfiles. now destruct entry.
Qed.

Lemma load_saved_files (fs : gmap string info) :
  valid_files fs ->
  map_rmap load_info (json_of_info <$> fs) = Ok fs.
Proof.
  intros Hv.
  set (dflt := mk_info [] [] (mk_datetime 1 1 1 0 0 0 0) (mk_datetime 1 1 1 0 0 0 0)).
  rewrite (map_rmap_ok _ (fun j => info_or dflt (load_info j))).
  - f_equal. rewrite <- map_fmap_compose.
    rewrite <- (map_fmap_id fs) at 2. apply map_fmap_ext.
    intros k entry Hk. cbn. rewrite load_info_json; [reflexivity|].
    exact (Hv k entry Hk).
  - intros k j Hk. apply lookup_fmap_Some in Hk as (entry & <- & Hk).
    rewrite load_info_json; [reflexivity|]. exact (Hv k entry Hk).
Qed.

Lemma save_shared_data_ok (w : world) :
  save_shared_data w
  = Ok (tt, mk_world (st w) (Some (json_of_info <$> files (st w)))
                     (entropy w) (clock w) (epoch w)).
Proof.
  unfold save_shared_data, bind, get_state, lift, write_file.
  rewrite (map_rmap_ok _ json_of_info); [reflexivity|].
  intros k entry _. apply save_info_ok.
Qed.

Lemma load_shared_data_saved (s0 : session_state) (fs : gmap string info)
    (ent : nat -> N) (clk : nat -> datetime) (ep : nat -> N) :
  valid_files fs ->
  load_shared_data (mk_world s0 (Some (json_of_info <$> fs)) ent clk ep)
  = Ok (tt, mk_world (set_files s0 fs) (Some (json_of_info <$> fs)) ent clk ep).
Proof.
  intros Hv. unfold load_shared_data, bind, read_file, lift, get_state, set_state.
  cbn [SHARED_DATA_FILE st entropy clock epoch].
  now rewrite load_saved_files.
Qed.

(** C5.  Saving the record collection and loading it back restores every
    record as it was: the payload and salt bytes, both timestamps to the
    microsecond, the names, sizes and encrypted flags.  The loading side may
    be the same session or a fresh one: whatever its state, its [files]
    become the saved collection. *)
Theorem load_after_save_restores_files (w : world) :
  valid_files (files (st w)) ->
  exists doc,
    save_shared_data w
    = Ok (tt, mk_world (st w) (Some doc) (entropy w) (clock w) (epoch w))
    /\ forall s0 ent clk ep,
        load_shared_data (mk_world s0 (Some doc) ent clk ep)
        = Ok (tt, mk_world (set_files s0 (files (st w))) (Some doc) ent clk ep).
Proof.
  intros Hv. exists (json_of_info <$> files (st w)). split.
  - apply save_shared_data_ok.
  - intros s0 ent clk ep. now apply load_shared_data_saved.
Qed.

Lemma load_after_save_restores_files_witness :
  valid_files (files (st sample_world))
  /\ exists doc,
      save_shared_data sample_world
      = Ok (tt, mk_world (st sample_world) (Some doc) (entropy sample_world)
                         (clock sample_world) (epoch sample_world))
      /\ forall s0 ent clk ep,
          load_shared_data (mk_world s0 (Some doc) ent clk ep)
          = Ok (tt, mk_world (set_files s0 (files (st sample_world)))
                             (Some doc) ent clk ep).
Proof.
  assert (Hv : valid_files (files (st sample_world))).
  { apply map_Forall_singleton. reflexivity. }
  split; [exact Hv|].
  exact (load_after_save_restores_files sample_world Hv).
Defined.

(** ** Bytes: exclusive or *)

Lemma lxor_byte_lt (a b : N) : a < 256 -> b < 256 -> N.lxor a b < 256.
Proof.
  intros Ha Hb.
  destruct (N.eq_dec (N.lxor a b) 0) as [->|Hne]; [lia|].
  change 256 with (2 ^ 8). apply N.log2_lt_pow2; [lia|].
  eapply N.le_lt_trans; [apply N.log2_lxor|].
  apply N.max_lub_lt.
  - destruct (N.eq_dec a 0) as [->|Ha0]; [reflexivity|].
    apply N.log2_lt_pow2; [lia | exact Ha].
  - destruct (N.eq_dec b 0) as [->|Hb0]; [reflexivity|].
    apply N.log2_lt_pow2; [lia | exact Hb].
Qed.

Lemma xor_byte_involutive (a b : byte) : xor_byte (xor_byte a b) b = a.
Proof.
  unfold xor_byte.
  rewrite to_of_N_small by (apply lxor_byte_lt; apply to_N_lt).
  rewrite N.lxor_assoc, N.lxor_nilpotent, N.lxor_0_r. apply byte_of_to_N.
Qed.

Lemma length_xor_bytes (a b : bytes) :
  length a = length b -> length (xor_bytes a b) = length a.
Proof.
  revert b. induction a as [|x a IH]; intros [|y b]; cbn; try congruence.
  intros [= E]. now rewrite IH.
Qed.

Lemma xor_bytes_involutive (a b : bytes) :
  length a = length b -> xor_bytes (xor_bytes a b) b = a.
Proof.
  revert b. induction a as [|x a IH]; intros [|y b]; cbn; try congruence.
  intros [= E]. now rewrite xor_byte_involutive, IH.
Qed.

(** ** PKCS7 *)

Lemma last_app_repeat (p : bytes) (b d : byte) (k : nat) :
  (0 < k)%nat -> List.last (p ++ repeat b k) d = b.
Proof.
  intros Hk. destruct k as [|k]; [lia|].
  replace (repeat b (S k)) with (repeat b k ++ [b]).
  - now rewrite app_assoc, List.last_last.
  - clear. induction k as [|k IH]; [reflexivity|]. cbn. f_equal. exact IH.
Qed.

Lemma pkcs7_pad_length (data : bytes) :
  (length (pkcs7_pad data) mod 16 = 0 /\ 0 < length (pkcs7_pad data))%nat.
Proof.
  unfold pkcs7_pad. rewrite length_app, repeat_length.
  pose proof (Nat.mod_upper_bound (length data) 16 ltac:(lia)) as Hlt.
  pose proof (Nat.div_mod_eq (length data) 16) as Hdm.
  split; [|lia].
  replace (length data + (16 - length data mod 16))%nat
    with ((1 + length data / 16) * 16)%nat by lia.
  apply Nat.Div0.mod_mul.
Qed.

Lemma pkcs7_unpad_pad (data : bytes) : pkcs7_unpad (pkcs7_pad data) = Ok data.
Proof.
  destruct (pkcs7_pad_length data) as [Hmod Hpos].
  unfold pkcs7_unpad. rewrite Hmod.
  destruct (Nat.eqb_spec (length (pkcs7_pad data)) 0) as [E|_]; [lia|].
  cbn [orb negb Nat.eqb].
  pose proof (Nat.mod_upper_bound (length data) 16 ltac:(lia)) as Hlt.
  set (k := (16 - length data mod 16)%nat).
  assert (Hk : (1 <= k <= 16)%nat) by (unfold k; lia).
  assert (Hlen : length (pkcs7_pad data) = (length data + k)%nat).
  { unfold pkcs7_pad. now rewrite length_app, repeat_length. }
  assert (Hlast : List.last (pkcs7_pad data) x00 = byte_of_N (N.of_nat k)).
  { unfold pkcs7_pad. apply last_app_repeat. fold k. lia. }
  rewrite Hlast, to_of_N_small, Nat2N.id by lia.
  destruct (Nat.eqb_spec k 0) as [E|_]; [lia|].
  destruct (Nat.ltb_spec 16 k) as [E|_]; [lia|].
  cbn [orb]. rewrite Hlen.
  replace (length data + k - k)%nat with (length data) by lia.
  unfold pkcs7_pad. fold k.
  now rewrite drop_app_length, take_app_length, bytes_eqb_refl.
Qed.

(** ** CBC *)

Section CryptoFacts.
Context `{PrimitivesOk}.

Lemma cbc_decrypt_blocks_step (fuel : nat) (key prev data : bytes) :
  data <> [] ->
  cbc_decrypt_blocks (S fuel) key prev data
  = xor_bytes (aes128_decrypt_block key (take 16 data)) prev
    ++ cbc_decrypt_blocks fuel key (take 16 data) (drop 16 data).
Proof. destruct data; [contradiction | reflexivity]. Qed.

Lemma cbc_roundtrip_blocks (nb : nat) :
  forall (key prev data : bytes) (fuel_e fuel_d : nat),
    length key = 16%nat -> length prev = 16%nat ->
    length data = (16 * nb)%nat -> (nb <= fuel_e)%nat -> (nb <= fuel_d)%nat ->
    length (cbc_encrypt_blocks fuel_e key prev data) = (16 * nb)%nat
    /\ cbc_decrypt_blocks fuel_d key prev
         (cbc_encrypt_blocks fuel_e key prev data) = data.
Proof.
  induction nb as [|nb IH]; intros key prev data fuel_e fuel_d Hkey Hprev Hlen He Hd.
  - destruct data; [|discriminate].
    destruct fuel_e, fuel_d; cbn; auto.
  - destruct fuel_e as [|fuel_e]; [lia|]. destruct fuel_d as [|fuel_d]; [lia|].
    destruct data as [|x data]; [discriminate|].
    cbn [cbc_encrypt_blocks].
    set (blk := take 16 (x :: data)).
    set (rest := drop 16 (x :: data)).
    assert (Hblk : length blk = 16%nat).
    { unfold blk. rewrite length_take_le; lia. }
    assert (Hrest : length rest = (16 * nb)%nat).
    { unfold rest. rewrite length_drop. lia. }
    assert (Hsplit : x :: data = blk ++ rest).
    { unfold blk, rest. now rewrite take_drop. }
    set (c := aes128_encrypt_block key (xor_bytes blk prev)).
    assert (Hc : length c = 16%nat).
    { unfold c. apply aes_length; [exact Hkey|].
      rewrite length_xor_bytes; congruence. }
    destruct (IH key c rest fuel_e fuel_d Hkey Hc Hrest ltac:(lia) ltac:(lia))
      as [IHlen IHdec].
    split.
    + rewrite length_app, Hc, IHlen. lia.
    + rewrite cbc_decrypt_blocks_step
        by (intros E; apply (f_equal length) in E; rewrite length_app, Hc in E;
            discriminate).
      rewrite (take_app_length' c _ 16), (drop_app_length' c _ 16) by congruence.
      rewrite IHdec. unfold c at 1.
      rewrite aes_inverse by (try rewrite length_xor_bytes; congruence).
      rewrite xor_bytes_involutive by congruence.
      now rewrite Hsplit.
Qed.

Lemma cbc_encrypt_length (key iv data : bytes) :
  length key = 16%nat -> length iv = 16%nat -> (length data mod 16 = 0)%nat ->
  length (cbc_encrypt key iv data) = length data.
Proof.
  intros Hkey Hiv Hmod. unfold cbc_encrypt.
  pose proof (Nat.div_mod_eq (length data) 16) as Hdm. rewrite Hmod in Hdm.
  destruct (cbc_roundtrip_blocks (length data / 16) key iv data (length data)
              (length data) Hkey Hiv) as [Hl _]; lia.
Qed.

Lemma cbc_decrypt_encrypt (key iv data : bytes) :
  length key = 16%nat -> length iv = 16%nat -> (length data mod 16 = 0)%nat ->
  cbc_decrypt key iv (cbc_encrypt key iv data) = Ok data.
Proof.
  intros Hkey Hiv Hmod. unfold cbc_decrypt.
  rewrite cbc_encrypt_length, Hiv, Hmod by assumption. cbn [Nat.eqb negb].
  unfold cbc_encrypt.
  pose proof (Nat.div_mod_eq (length data) 16) as Hdm. rewrite Hmod in Hdm.
  destruct (cbc_roundtrip_blocks (length data / 16) key iv data (length data)
              (length data) Hkey Hiv) as [Hl Hdec]; try lia.
  now rewrite Hdec.
Qed.

End CryptoFacts.

(** ** The random source *)

Lemma drop_tape_nth {A} (n : nat) (tape : nat -> A) (i : nat) :
  drop_tape n tape i = tape (n + i)%nat.
Proof.
  revert tape. induction n as [|n IH]; intros tape; [reflexivity|].
  cbn [drop_tape]. rewrite IH. unfold tail. f_equal.
Qed.

Lemma length_take_tape {A} (n : nat) (tape : nat -> A) :
  length (take_tape n tape) = n.
Proof.
  revert tape. induction n as [|n IH]; intros tape; cbn; [|rewrite IH];
    reflexivity.
Qed.

Lemma repeatM_draw {A} (f : N -> A) (n : nat) (w : world) :
  repeatM n (r <- draw ;; ret (f r)) w
  = Ok (map f (take_tape n (entropy w)),
        with_entropy w (drop_tape n (entropy w))).
Proof.
  revert w. induction n as [|n IH]; intros w.
  - destruct w; reflexivity.
  - cbn [repeatM]. unfold bind at 1. unfold bind at 1.
    cbn [draw ret]. unfold bind at 1. rewrite IH. reflexivity.
Qed.

Lemma token_bytes_spec (n : nat) (w : world) :
  token_bytes n w
  = Ok (map byte_of_N (take_tape n (entropy w)),
        with_entropy w (drop_tape n (entropy w))).
Proof. apply repeatM_draw. Qed.

(** ** Fernet *)

Lemma big_endian_length (w : nat) (n : N) : length (big_endian w n) = w.
Proof. induction w as [|w IH]; cbn; [|rewrite IH]; reflexivity. Qed.

Lemma Fernet_encoded_key `{Primitives} (k : bytes) :
  length k = 32%nat ->
  Fernet (urlsafe_b64encode k) = Ok (mk_fernet (take 16 k) (drop 16 k)).
Proof.
  intros Hk. unfold Fernet. rewrite urlsafe_b64decode_b64encode, Hk.
  reflexivity.
Qed.

Lemma encrypt_from_parts_ok `{Primitives} (f : fernet) (data : bytes) (ts : N)
    (iv : bytes) :
  ts < 2 ^ 64 ->
  _encrypt_from_parts f data ts iv
  = Ok (urlsafe_b64encode
          (basic_parts (big_endian 8 ts) iv
             (cbc_encrypt (_encryption_key f) iv (pkcs7_pad data))
           ++ hmac_sha256 (_signing_key f)
                (basic_parts (big_endian 8 ts) iv
                   (cbc_encrypt (_encryption_key f) iv (pkcs7_pad data))))).
Proof.
  intros Hts. unfold _encrypt_from_parts, to_bytes.
  apply N.ltb_lt in Hts. change (2 ^ (8 * N.of_nat 8)) with (2 ^ 64).
  now rewrite Hts.
Qed.

(** Decrypting a well-formed token: the tag is compared, then the
    ciphertext is decrypted and unpadded. *)
Lemma fernet_decrypt_token `{Primitives} (f : fernet)
    (stamp iv ct tag : bytes) :
  length stamp = 8%nat -> length iv = 16%nat -> length tag = 32%nat ->
  fernet_decrypt f (urlsafe_b64encode (basic_parts stamp iv ct ++ tag))
  = if bytes_eqb (hmac_sha256 (_signing_key f) (basic_parts stamp iv ct)) tag
    then
      let! padded := cbc_decrypt (_encryption_key f) iv ct in
      match pkcs7_unpad padded with
      | Ok unpadded => Ok unpadded
      | Raise _ => Raise InvalidToken
      end
    else Raise InvalidToken.
Proof.
  intros Hstamp Hiv Htag.
  unfold fernet_decrypt, _get_unverified_token_data.
  rewrite urlsafe_b64decode_b64encode.
  set (body := basic_parts stamp iv ct).
  assert (Hbody : length body = (25 + length ct)%nat).
  { unfold body, basic_parts. cbn [length]. rewrite !length_app. lia. }
  assert (Hdata : length (body ++ tag) = (57 + length ct)%nat).
  { rewrite length_app. lia. }
  unfold body at 1, basic_parts at 1. cbn [app].
  change (x80 :: (stamp ++ iv ++ ct) ++ tag) with (body ++ tag).
  rewrite byte_eqb_refl. cbn [negb].
  destruct (Nat.ltb_spec (length (body ++ tag)) 9) as [E|_]; [lia|].
  cbn [rbind]. unfold _decrypt_data, _verify_signature.
  replace (length (body ++ tag) - 32)%nat with (length body) by lia.
  rewrite take_app_length, drop_app_length.
  destruct (bytes_eqb (hmac_sha256 (_signing_key f) body) tag); [|reflexivity].
  cbn [rbind].
  assert (Hiv' : take 16 (drop 9 (body ++ tag)) = iv).
  { unfold body, basic_parts.
    replace ((x80 :: stamp ++ iv ++ ct) ++ tag)
      with ((x80 :: stamp) ++ iv ++ ct ++ tag)
      by (cbn [app]; now rewrite <- !app_assoc).
    rewrite (drop_app_length' (x80 :: stamp)) by (cbn [length]; lia).
    now rewrite take_app_length' by lia. }
  assert (Hct : take (length body - 25) (drop 25 (body ++ tag)) = ct).
  { unfold body, basic_parts.
    replace ((x80 :: stamp ++ iv ++ ct) ++ tag)
      with ((x80 :: stamp ++ iv) ++ ct ++ tag)
      by (cbn [app]; now rewrite <- !app_assoc).
    rewrite (drop_app_length' (x80 :: stamp ++ iv))
      by (cbn [length]; rewrite length_app; lia).
    apply take_app_length'. fold (basic_parts stamp iv ct). fold body. lia. }
  rewrite Hiv', Hct. reflexivity.
Qed.

Section KeyFacts.
Context `{PrimitivesOk}.

Lemma pbkdf2_block_length (password salt : bytes) (c i : N) :
  length (pbkdf2_block password salt c i) = 32%nat.
Proof.
  unfold pbkdf2_block.
  apply (N.iter_invariant (c - 1) _ (pbkdf2_round password)
           (fun st => length (fst st) = 32%nat /\ length (snd st) = 32%nat)).
  - intros [u t] [Hu Ht]. cbn [pbkdf2_round fst snd]. split.
    + apply hmac_length.
    + rewrite length_xor_bytes; [exact Ht|]. now rewrite hmac_length.
  - cbn [fst snd]. split; apply hmac_length.
Qed.

Lemma pbkdf2_length (password salt : bytes) (c : N) :
  length (pbkdf2_hmac_sha256 password salt c 32) = 32%nat.
Proof.
  unfold pbkdf2_hmac_sha256. change ((32 + 31) / 32)%nat with 1%nat.
  cbn [seq map concat]. rewrite app_nil_r, length_take, pbkdf2_block_length.
  reflexivity.
Qed.

(** A derived key is always accepted by [Fernet]: it decodes to 32 bytes,
    the signing half followed by the encryption half. *)
Lemma Fernet_generated_key (password : string) (salt : bytes) :
  exists f,
    Fernet (generate_encryption_key password salt) = Ok f
    /\ length (_signing_key f) = 16%nat /\ length (_encryption_key f) = 16%nat.
Proof.
  unfold generate_encryption_key.
  set (dk := pbkdf2_hmac_sha256 (str_encode password) salt 100000 32).
  assert (Hdk : length dk = 32%nat) by apply pbkdf2_length.
  exists (mk_fernet (take 16 dk) (drop 16 dk)). split; [|split].
  - now apply Fernet_encoded_key.
  - cbn [_signing_key]. rewrite length_take, Hdk. reflexivity.
  - cbn [_encryption_key]. rewrite length_drop, Hdk. reflexivity.
Qed.

Lemma fernet_roundtrip_parts (f : fernet) (data : bytes) (ts : N) (iv : bytes) :
  length (_encryption_key f) = 16%nat -> length iv = 16%nat -> ts < 2 ^ 64 ->
  exists token,
    _encrypt_from_parts f data ts iv = Ok token
    /\ fernet_decrypt f token = Ok data.
Proof.
  intros Hkey Hiv Hts. eexists. split; [now apply encrypt_from_parts_ok|].
  rewrite fernet_decrypt_token
    by (try apply big_endian_length; try apply hmac_length; assumption).
  rewrite bytes_eqb_refl.
  rewrite cbc_decrypt_encrypt
    by (try assumption; apply pkcs7_pad_length).
  cbn [rbind]. now rewrite pkcs7_unpad_pad.
Qed.

Lemma encrypt_file_spec (data key : bytes) (f : fernet) (w : world) :
  Fernet key = Ok f -> epoch w O < 2 ^ 64 ->
  encrypt_file data key w
  = Ok (urlsafe_b64encode
          (let iv := map byte_of_N (take_tape 16 (entropy w)) in
           let body := basic_parts (big_endian 8 (epoch w O)) iv
                         (cbc_encrypt (_encryption_key f) iv (pkcs7_pad data)) in
           body ++ hmac_sha256 (_signing_key f) body),
        mk_world (st w) (SHARED_DATA_FILE w) (drop_tape 16 (entropy w))
                 (clock w) (tail (epoch w))).
Proof.
  intros Hf Hts. unfold encrypt_file, bind, lift. rewrite Hf.
  unfold fernet_encrypt, bind, time_time, urandom.
  rewrite token_bytes_spec. unfold lift.
  cbn [entropy with_entropy st SHARED_DATA_FILE clock epoch].
  now rewrite encrypt_from_parts_ok by exact Hts.
Qed.

Lemma encrypt_file_roundtrip (data key : bytes) (f : fernet) (w : world) :
  Fernet key = Ok f -> length (_encryption_key f) = 16%nat ->
  epoch w O < 2 ^ 64 ->
  exists token,
    encrypt_file data key w
    = Ok (token, mk_world (st w) (SHARED_DATA_FILE w) (drop_tape 16 (entropy w))
                          (clock w) (tail (epoch w)))
    /\ decrypt_file token key = Ok data.
Proof.
  intros Hf Hkey Hts. eexists.
  split; [exact (encrypt_file_spec data key f w Hf Hts)|].
  unfold decrypt_file. rewrite Hf. cbn [rbind].
  destruct (fernet_roundtrip_parts f data (epoch w O)
              (map byte_of_N (take_tape 16 (entropy w))) Hkey) as (token & He & Hd).
  - now rewrite length_map, length_take_tape.
  - exact Hts.
  - rewrite encrypt_from_parts_ok in He by exact Hts.
    injection He as <-. exact Hd.
Qed.

End KeyFacts.

(** C2.  Whatever the plaintext, the password and the salt: encrypting under
    the derived key succeeds, and decrypting the token it returns under the
    same key gives back exactly the plaintext. *)
Theorem decrypt_file_encrypt_file `{PrimitivesOk} (p : bytes)
    (password : string) (salt : bytes) (w : world) :
  epoch w O < 2 ^ 64 ->
  exists token w',
    encrypt_file p (generate_encryption_key password salt) w = Ok (token, w')
    /\ decrypt_file token (generate_encryption_key password salt) = Ok p.
Proof.
  intros Hts.
  destruct (Fernet_generated_key password salt) as (f & Hf & _ & Hek).
  destruct (encrypt_file_roundtrip p _ f w Hf Hek Hts) as (token & He & Hd).
  eauto.
Qed.

#[local] Instance xor_primitives_ok : @PrimitivesOk xor_primitives.
Proof.
  split.
  - intros key msg. apply big_endian_length.
  - intros key block Hk Hb. cbn. rewrite length_xor_bytes; congruence.
  - intros key block Hk Hb. cbn. apply xor_bytes_involutive. congruence.
Qed.

Lemma decrypt_file_encrypt_file_witness :
  epoch sample_world O < 2 ^ 64
  /\ exists token w',
      encrypt_file (list_byte_of_string "hello")
        (generate_encryption_key "042137" (i_salt sample_info)) sample_world
      = Ok (token, w')
      /\ decrypt_file token
           (generate_encryption_key "042137" (i_salt sample_info))
         = Ok (list_byte_of_string "hello").
Proof.
  assert (Hts : epoch sample_world O < 2 ^ 64) by reflexivity.
  split; [exact Hts|].
  exact (@decrypt_file_encrypt_file xor_primitives xor_primitives_ok
           (list_byte_of_string "hello") "042137" (i_salt sample_info)
           sample_world Hts).
Defined.

(** ** The world monad *)

Lemma bind_ok {A B} (m : M A) (k : A -> M B) (w w1 : world) (a : A) :
  m w = Ok (a, w1) -> bind m k w = k a w1.
Proof. intros Hm. unfold bind. now rewrite Hm. Qed.

Lemma repeatM_tape {A} (m : M A) (f : N -> A) (n : nat) :
  (forall w, m w = Ok (f (entropy w O), with_entropy w (tail (entropy w)))) ->
  forall w,
    repeatM n m w
    = Ok (map f (take_tape n (entropy w)),
          with_entropy w (drop_tape n (entropy w))).
Proof.
  intros Hm. induction n as [|n IH]; intros w.
  - destruct w; reflexivity.
  - cbn [repeatM]. rewrite (bind_ok _ _ _ _ _ (Hm w)).
    rewrite (bind_ok _ _ _ _ _ (IH _)). reflexivity.
Qed.

Lemma generate_share_code_spec (w : world) :
  generate_share_code w
  = Ok (share_code_of (entropy w), with_entropy w (drop_tape 6 (entropy w))).
Proof.
  unfold generate_share_code.
  rewrite (bind_ok _ _ _ _ _
             (repeatM_tape _ (fun r => str_of_N (r mod 10)) 6 ltac:(reflexivity) w)).
  reflexivity.
Qed.

(** ** The send handler *)

Section SendFacts.
Context `{Primitives}.

(** The loop over [uploaded_files]: it reads the epoch clock and the random
    source when it encrypts, and nothing else; every entry it stores gives
    back the uploaded bytes. *)
Lemma store_files_spec (use_encryption : bool) (key : bytes)
    (uploaded_files : list uploaded_file) :
  (use_encryption = true ->
   PrimitivesOk /\ exists f, Fernet key = Ok f
                             /\ length (_encryption_key f) = 16%nat) ->
  forall w,
    (use_encryption = true -> forall i, epoch w i < 2 ^ 64) ->
    exists file_data ent ep,
      forM uploaded_files (fun file =>
        let data := u_value file in
        data <- (if use_encryption then encrypt_file data key else ret data) ;;
        ret (mk_file (u_name file) data (N.of_nat (length (u_value file)))
                     use_encryption)) w
      = Ok (file_data, mk_world (st w) (SHARED_DATA_FILE w) ent (clock w) ep)
      /\ Forall2 (stored_as use_encryption key) uploaded_files file_data.
Proof.
  intros Hprims. induction uploaded_files as [|file rest IH]; intros w Hep.
  - exists [], (entropy w), (epoch w). split; [destruct w; reflexivity|].
    constructor.
  - cbn [forM]. destruct use_encryption.
    + destruct (Hprims eq_refl) as (Hok & f & Hf & Hkey).
      destruct (encrypt_file_roundtrip (u_value file) key f w Hf Hkey
                  (Hep eq_refl O)) as (token & Henc & Hdec).
      rewrite (bind_ok _ _ _ _ _ (bind_ok _ _ _ _ _ Henc)).
      destruct (IH (mk_world (st w) (SHARED_DATA_FILE w)
                             (drop_tape 16 (entropy w)) (clock w)
                             (tail (epoch w))))
        as (file_data & ent & ep & Hrest & Hall).
      { intros _ i. apply (Hep eq_refl (S i)). }
      cbn [ret]. rewrite (bind_ok _ _ _ _ _ Hrest).
      eexists _, ent, ep. split; [reflexivity|].
      constructor; [|exact Hall]. repeat split. exact Hdec.
    + destruct (IH w) as (file_data & ent & ep & Hrest & Hall);
        [discriminate|].
      unfold bind at 1. unfold bind at 1. cbn [ret].
      rewrite (bind_ok _ _ _ _ _ Hrest).
      eexists _, ent, ep. split; [reflexivity|].
      constructor; [|exact Hall]. repeat split.
Qed.

(** The whole handler.  [e] is the expiry the second clock reading gives. *)
Lemma on_generate_share_code_spec (uploaded_files : list uploaded_file)
    (use_encryption : bool) (w : world) (e : datetime) :
  (use_encryption = true -> PrimitivesOk /\ forall i, epoch w i < 2 ^ 64) ->
  datetime_add (clock w 1%nat) (timedelta_hours 24) = Ok e ->
  let code := share_code_of (entropy w) in
  let salt := salt_of (entropy w) in
  let key := generate_encryption_key code salt in
  exists file_data w',
    on_generate_share_code uploaded_files use_encryption w = Ok (tt, w')
    /\ st w' = mk_session
                 (<[code := mk_info file_data salt (clock w O) e]> (files (st w)))
                 (Some code) (Some key) (current_download (st w))
    /\ SHARED_DATA_FILE w' = Some (json_of_info <$> files (st w'))
    /\ clock w' = tail (tail (clock w))
    /\ Forall2 (stored_as use_encryption key) uploaded_files file_data.
Proof.
  intros Hprims Hadd code salt key.
  unfold on_generate_share_code.
  rewrite (bind_ok _ _ _ _ _ (generate_share_code_spec w)).
  rewrite (bind_ok _ _ _ _ _ (token_bytes_spec 16 _)).
  cbn [entropy with_entropy].
  fold code. fold (salt_of (entropy w)). fold salt. fold key.
  destruct (store_files_spec use_encryption key uploaded_files) with
    (w := with_entropy (with_entropy w (drop_tape 6 (entropy w)))
            (drop_tape 16 (drop_tape 6 (entropy w))))
    as (file_data & ent & ep & Hloop & Hall).
  { intros Henc. destruct (Hprims Henc) as [Hok _]. split; [exact Hok|].
    destruct (Fernet_generated_key code salt) as (f & Hf & _ & Hek). eauto. }
  { intros Henc i. apply (Hprims Henc). }
  rewrite (bind_ok _ _ _ _ _ Hloop).
  unfold bind, datetime_now, lift, get_state, set_state.
  cbn [clock st SHARED_DATA_FILE entropy epoch with_entropy tail].
  unfold tail at 1. rewrite Hadd.
  rewrite save_shared_data_ok.
  eexists file_data, _. split; [reflexivity|].
  cbn [st SHARED_DATA_FILE clock files]. auto.
Qed.

End SendFacts.

(** ** Order and arithmetic of datetimes *)

Ltac cmp_step :=
  match goal with
  | H : context [N.compare ?x ?y] |- _ =>
      destruct (N.compare_spec x y); cbn [lex] in *
  | |- context [N.compare ?x ?y] =>
      destruct (N.compare_spec x y); cbn [lex] in *
  end;
  subst; try discriminate; try reflexivity; try lia.

Lemma datetime_gt_le_trans (a b c : datetime) :
  datetime_gt c b = true -> datetime_le a b = true -> datetime_gt c a = true.
Proof.
  destruct a, b, c. unfold datetime_le, datetime_gt, datetime_cmp.
  cbn [year month day hour minute second microsecond].
  intros H1 H2. repeat cmp_step.
Qed.

Lemma datetime_le_gt_trans (a b c : datetime) :
  datetime_le c b = true -> datetime_gt a b = true -> datetime_gt a c = true.
Proof.
  destruct a, b, c. unfold datetime_le, datetime_gt, datetime_cmp.
  cbn [year month day hour minute second microsecond].
  intros H1 H2. repeat cmp_step.
Qed.

Lemma datetime_le_refl (a : datetime) : datetime_le a a = true.
Proof.
  destruct a. unfold datetime_le, datetime_gt, datetime_cmp.
  cbn [year month day hour minute second microsecond].
  now rewrite !N.compare_refl.
Qed.

Lemma timedelta_hours_24 : timedelta_hours 24 = mk_timedelta 1 0 0.
Proof. reflexivity. Qed.

(** Adding 24 hours moves the date to the next calendar day and keeps the
    time of day. *)
Lemma datetime_add_24h (t : datetime) :
  valid_datetime t = true ->
  datetime_add t (timedelta_hours 24)
  = let! (y, m, d) := next_day (year t, month t, day t) in
    Ok (mk_datetime y m d (hour t) (minute t) (second t) (microsecond t)).
Proof.
  destruct t as [y m d h mi s us]. unfold valid_datetime.
  cbn [year month day hour minute second microsecond]. intros Hv.
  apply andb_true_iff in Hv as [_ Hv]. unfold valid_time in Hv. split_andb.
  rewrite timedelta_hours_24. unfold datetime_add.
  cbn [year month day hour minute second microsecond td_days td_seconds
       td_microseconds].
  replace ((us + 0) / 1000000) with 0 by lia.
  replace ((h * 3600 + mi * 60 + s + 0 + 0) / 86400) with 0 by lia.
  change (N.to_nat (1 + 0)) with 1%nat. cbn [add_days].
  destruct (next_day (y, m, d)) as [[[y' m'] d']|err]; [|reflexivity].
  cbn [rbind]. f_equal. f_equal; lia.
Qed.

Lemma next_day_valid (y m d y' m' d' : N) :
  valid_date y m d = true -> next_day (y, m, d) = Ok (y', m', d') ->
  valid_date y' m' d' = true
  /\ lex (y' ?= y) (lex (m' ?= m) (d' ?= d)) = Gt.
Proof.
  unfold valid_date, next_day, MINYEAR, MAXYEAR. intros Hv Hn. split_andb.
  destruct (N.ltb_spec d (days_in_month y m)).
  { injection Hn as <- <- <-. split.
    - repeat (apply andb_true_iff; split); try apply N.leb_le; lia.
    - rewrite !N.compare_refl. cbn [lex]. apply N.compare_gt_iff. lia. }
  destruct (N.ltb_spec m 12).
  { injection Hn as <- <- <-. pose proof (days_in_month_ge y (m + 1)). split.
    - repeat (apply andb_true_iff; split); try apply N.leb_le; lia.
    - rewrite N.compare_refl. cbn [lex].
      replace (m + 1 ?= m) with Gt; [reflexivity|].
      symmetry. apply N.compare_gt_iff. lia. }
  destruct (N.ltb_spec y 9999); [|discriminate].
  injection Hn as <- <- <-. pose proof (days_in_month_ge (y + 1) 1). split.
  - repeat (apply andb_true_iff; split); try apply N.leb_le; lia.
  - replace (y + 1 ?= y) with Gt; [reflexivity|].
    symmetry. apply N.compare_gt_iff. lia.
Qed.

(** The result of [t + timedelta(hours=24)] is a datetime again, and a
    later one. *)
Lemma datetime_add_24h_later (t e : datetime) :
  valid_datetime t = true ->
  datetime_add t (timedelta_hours 24) = Ok e ->
  valid_datetime e = true /\ datetime_gt e t = true.
Proof.
  intros Hv Hadd. rewrite datetime_add_24h in Hadd by exact Hv.
  destruct (next_day (year t, month t, day t)) as [[[y' m'] d']|err] eqn:Hn;
    [|discriminate].
  cbn [rbind] in Hadd. injection Hadd as <-.
  unfold valid_datetime in Hv. apply andb_true_iff in Hv as [Hd Ht].
  destruct (next_day_valid _ _ _ _ _ _ Hd Hn) as [Hd' Hgt].
  split.
  - unfold valid_datetime. cbn [year month day hour minute second microsecond].
    now rewrite Hd', Ht.
  - unfold datetime_gt, datetime_cmp.
    cbn [year month day hour minute second microsecond].
    destruct (y' ?= year t); cbn [lex] in *; try discriminate; try reflexivity.
    destruct (m' ?= month t); cbn [lex] in *; try discriminate; try reflexivity.
    now rewrite Hgt.
Qed.

(** It succeeds for every datetime before the last year of the calendar. *)
Lemma datetime_add_24h_ok (t : datetime) :
  valid_datetime t = true -> year t < MAXYEAR ->
  exists e, datetime_add t (timedelta_hours 24) = Ok e.
Proof.
  intros Hv Hy. rewrite datetime_add_24h by exact Hv.
  unfold next_day, MAXYEAR in *.
  repeat match goal with |- context [if ?b then _ else _] => destruct b eqn:? end;
    cbn [rbind]; eauto.
  split_andb. lia.
Qed.

(** Adding 24 hours preserves the order of two readings. *)
Lemma datetime_add_24h_mono (a b eb : datetime) :
  valid_datetime a = true -> valid_datetime b = true ->
  datetime_le a b = true ->
  datetime_add b (timedelta_hours 24) = Ok eb ->
  exists ea, datetime_add a (timedelta_hours 24) = Ok ea
             /\ datetime_le ea eb = true.
Proof.
  intros Ha Hb Hle Hadd.
  rewrite datetime_add_24h in Hadd |- * by assumption.
  destruct a as [y1 m1 d1 h1 mi1 s1 us1], b as [y2 m2 d2 h2 mi2 s2 us2].
  unfold valid_datetime, valid_date, valid_time, MINYEAR, MAXYEAR in Ha, Hb.
  cbn [year month day hour minute second microsecond] in *.
  split_andb.
  pose proof (days_in_month_ge y1 m1). pose proof (days_in_month_ge y2 m2).
  pose proof (days_in_month_ge y1 (m1 + 1)).
  pose proof (days_in_month_ge (y1 + 1) 1).
  unfold next_day, MAXYEAR in *.
  unfold datetime_le, datetime_gt, datetime_cmp in Hle.
  cbn [year month day hour minute second microsecond] in Hle.
  destruct (N.ltb_spec d2 (days_in_month y2 m2));
    [|destruct (N.ltb_spec m2 12); [|destruct (N.ltb_spec y2 9999)]];
    cbn [rbind] in Hadd; try discriminate; injection Hadd as <-;
    (destruct (N.ltb_spec d1 (days_in_month y1 m1));
     [|destruct (N.ltb_spec m1 12); [|destruct (N.ltb_spec y1 9999)]]);
    cbn [rbind];
    try (eexists; split; [reflexivity|];
         unfold datetime_le, datetime_gt, datetime_cmp;
         cbn [year month day hour minute second microsecond];
         repeat cmp_step);
    exfalso; repeat cmp_step.
Qed.

Lemma datetime_le_gt_trans' (a b c : datetime) :
  datetime_le a c = true -> datetime_gt a b = true -> datetime_gt c b = true.
Proof.
  destruct a, b, c. unfold datetime_le, datetime_gt, datetime_cmp.
  cbn [year month day hour minute second microsecond].
  intros H1 H2. repeat cmp_step.
Qed.

Lemma ticking_clock_monotone : monotone ticking_clock.
Proof.
  intros i j Hij. unfold ticking_clock, datetime_le, datetime_gt, datetime_cmp.
  cbn [year month day hour minute second microsecond lex N.compare Pos.compare
       Pos.compare_cont].
  destruct (N.compare_spec (N.of_nat i) (N.of_nat j)); try reflexivity. lia.
Qed.

(** ** The share code *)

Lemma str_of_digit (d : N) : d < 10 -> str_of_N d = String (digit_char d) "".
Proof.
  intros Hd.
  assert (Hc : d = 0 \/ d = 1 \/ d = 2 \/ d = 3 \/ d = 4 \/ d = 5 \/ d = 6
               \/ d = 7 \/ d = 8 \/ d = 9) by lia.
  repeat (destruct Hc as [->|Hc]; [reflexivity|]). now subst.
Qed.

Lemma is_digit_char (d : N) : d < 10 -> is_digit (digit_char d) = true.
Proof. intros Hd. unfold is_digit. now rewrite digit_value_char. Qed.

Lemma share_code_of_format (tape : nat -> N) :
  is_share_code (share_code_of tape) = true.
Proof.
  unfold share_code_of. cbn [take_tape map String.concat].
  rewrite !str_of_digit by (apply N.mod_lt; lia).
  cbn [String.concat]. rewrite !append_String, !append_empty_l.
  unfold is_share_code.
  cbn [String.length Nat.eqb list_ascii_of_string forallb andb].
  rewrite !is_digit_char by (apply N.mod_lt; lia). reflexivity.
Qed.

Example share_code_of_zeros : share_code_of (fun _ => 0) = "000000"%string.
Proof. reflexivity. Qed.

Example share_code_of_readings :
  share_code_of (fun i => 7 + 13 * N.of_nat i) = "703692"%string.
Proof. reflexivity. Qed.

(** C1, as stated, fails: with 000000 live and a random source that draws
    six zeros, the generator returns 000000. *)
Lemma generate_share_code_returns_live_code :
  files (st collision_world) <> ∅
  /\ is_Some (files (st collision_world) !! "000000"%string)
  /\ exists w', generate_share_code collision_world = Ok ("000000"%string, w').
Proof.
  split; [|split].
  - intros E. apply (f_equal (fun m => m !! "000000"%string)) in E.
    cbn [collision_world st files] in E.
    rewrite lookup_singleton_eq, lookup_empty in E. discriminate.
  - cbn [collision_world st files]. rewrite lookup_singleton_eq. eauto.
  - eexists. rewrite generate_share_code_spec. reflexivity.
Qed.

(** C1, amended.  The generator takes no set of existing codes and never
    retries: the code is the next six readings of the random source, each
    reduced modulo 10 and printed as one digit.  It matches [^\d{6}$], and it
    is the same whatever records the session holds. *)
Theorem generate_share_code_from_random_source (w : world) (s : session_state) :
  generate_share_code w
  = Ok (share_code_of (entropy w), with_entropy w (drop_tape 6 (entropy w)))
  /\ is_share_code (share_code_of (entropy w)) = true
  /\ generate_share_code (with_state w s)
     = Ok (share_code_of (entropy w),
           with_entropy (with_state w s) (drop_tape 6 (entropy w))).
Proof.
  split; [|split].
  - apply generate_share_code_spec.
  - apply share_code_of_format.
  - apply (generate_share_code_spec (with_state w s)).
Qed.

(** ** Creating a share *)

Lemma collision_world_expiry :
  datetime_add (clock collision_world 1%nat) (timedelta_hours 24)
  = Ok (mk_datetime 2024 3 2 12 0 0 1).
Proof. reflexivity. Qed.

(** C6, as stated, fails: the handler stores the new record under the live
    code 000000 and the old record is gone; nothing is raised. *)
Lemma on_generate_share_code_replaces_live_record :
  files (st collision_world) !! "000000"%string = Some old_info
  /\ datetime_gt (clock collision_world O) (i_expires old_info) = false
  /\ exists w' entry,
      @on_generate_share_code xor_primitives [new_upload] false collision_world
      = Ok (tt, w')
      /\ files (st w') !! "000000"%string = Some entry
      /\ entry <> old_info.
Proof.
  split; [|split].
  - cbn [collision_world st files]. apply lookup_singleton_eq.
  - reflexivity.
  - destruct (@on_generate_share_code_spec xor_primitives [new_upload] false
                collision_world _ ltac:(discriminate) collision_world_expiry)
      as (file_data & w' & Hrun & Hst & _ & _ & Hall).
    eexists w', _. split; [exact Hrun|]. rewrite Hst. cbn [files].
    change (share_code_of (entropy collision_world)) with "000000"%string.
    rewrite lookup_insert_eq. split; [reflexivity|].
    intros E. apply (f_equal i_created) in E. discriminate.
Qed.

(** C6, amended.  Storing a record under a code that is already present
    replaces the record held there, expired or not: the handler succeeds,
    the new record is the only one under that code, and the records under
    all other codes are left as they were.  There is no DuplicateKeyError. *)
Theorem on_generate_share_code_overwrites `{Primitives}
    (uploaded_files : list uploaded_file) (use_encryption : bool) (w : world)
    (old : info) :
  (use_encryption = true -> PrimitivesOk /\ forall i, epoch w i < 2 ^ 64) ->
  valid_datetime (clock w 1%nat) = true -> year (clock w 1%nat) < MAXYEAR ->
  files (st w) !! share_code_of (entropy w) = Some old ->
  exists w' file_data e,
    on_generate_share_code uploaded_files use_encryption w = Ok (tt, w')
    /\ files (st w') !! share_code_of (entropy w)
       = Some (mk_info file_data (salt_of (entropy w)) (clock w O) e)
    /\ Forall2 (stored_as use_encryption
                  (generate_encryption_key (share_code_of (entropy w))
                     (salt_of (entropy w))))
               uploaded_files file_data
    /\ forall code, code <> share_code_of (entropy w) ->
                    files (st w') !! code = files (st w) !! code.
Proof.
  intros Hprims Hvalid Hyear Hold.
  destruct (datetime_add_24h_ok _ Hvalid Hyear) as [e Hadd].
  destruct (on_generate_share_code_spec uploaded_files use_encryption w e
              Hprims Hadd) as (file_data & w' & Hrun & Hst & _ & _ & Hall).
  exists w', file_data, e. split; [exact Hrun|]. rewrite Hst. cbn [files].
  split; [apply lookup_insert_eq|]. split; [exact Hall|].
  intros code Hne. now apply lookup_insert_ne.
Qed.

Lemma on_generate_share_code_overwrites_witness :
  exists w' file_data e,
    @on_generate_share_code xor_primitives [new_upload] true collision_world
    = Ok (tt, w')
    /\ files (st w') !! share_code_of (entropy collision_world)
       = Some (mk_info file_data (salt_of (entropy collision_world))
                       (clock collision_world O) e)
    /\ Forall2 (@stored_as xor_primitives true
                  (generate_encryption_key
                     (share_code_of (entropy collision_world))
                     (salt_of (entropy collision_world))))
               [new_upload] file_data
    /\ forall code, code <> share_code_of (entropy collision_world) ->
                    files (st w') !! code = files (st collision_world) !! code.
Proof.
  apply (@on_generate_share_code_overwrites xor_primitives [new_upload] true
           collision_world old_info).
  - intros _. split; [exact xor_primitives_ok|]. intros i. reflexivity.
  - reflexivity.
  - reflexivity.
  - reflexivity.
Defined.

(** C9, as stated, fails: the handler reads the clock twice, so when the
    clock has moved between the two readings the stored expiry is not the
    stored creation time plus 24 hours. *)
Lemma expires_is_not_created_plus_24h :
  exists w' entry c24,
    @on_generate_share_code xor_primitives [new_upload] false collision_world
    = Ok (tt, w')
    /\ files (st w') !! "000000"%string = Some entry
    /\ datetime_add (i_created entry) (timedelta_hours 24) = Ok c24
    /\ c24 = mk_datetime 2024 3 2 12 0 0 0
    /\ i_expires entry = mk_datetime 2024 3 2 12 0 0 1
    /\ i_expires entry <> c24.
Proof.
  destruct (@on_generate_share_code_spec xor_primitives [new_upload] false
              collision_world _ ltac:(discriminate) collision_world_expiry)
    as (file_data & w' & Hrun & Hst & _ & _ & _).
  eexists w', _, _. split; [exact Hrun|]. rewrite Hst. cbn [files].
  change (share_code_of (entropy collision_world)) with "000000"%string.
  rewrite lookup_insert_eq. repeat split. discriminate.
Qed.

(** C9, amended.  [created] is one clock reading and [expires] is the next
    clock reading plus 24 hours.  When the clock has not run backwards
    between the two, [expires] is at least 24 hours after [created], and in
    particular later than [created]. *)
Theorem created_and_expires_of_new_record `{Primitives}
    (uploaded_files : list uploaded_file) (use_encryption : bool) (w : world) :
  (use_encryption = true -> PrimitivesOk /\ forall i, epoch w i < 2 ^ 64) ->
  valid_datetime (clock w O) = true ->
  valid_datetime (clock w 1%nat) = true -> year (clock w 1%nat) < MAXYEAR ->
  exists w' entry,
    on_generate_share_code uploaded_files use_encryption w = Ok (tt, w')
    /\ files (st w') !! share_code_of (entropy w) = Some entry
    /\ i_created entry = clock w O
    /\ datetime_add (clock w 1%nat) (timedelta_hours 24) = Ok (i_expires entry)
    /\ (datetime_le (clock w O) (clock w 1%nat) = true ->
        datetime_gt (i_expires entry) (i_created entry) = true
        /\ exists c24,
            datetime_add (i_created entry) (timedelta_hours 24) = Ok c24
            /\ datetime_le c24 (i_expires entry) = true).
Proof.
  intros Hprims Hv0 Hv1 Hyear.
  destruct (datetime_add_24h_ok _ Hv1 Hyear) as [e Hadd].
  destruct (on_generate_share_code_spec uploaded_files use_encryption w e
              Hprims Hadd) as (file_data & w' & Hrun & Hst & _ & _ & _).
  eexists w', _. split; [exact Hrun|]. rewrite Hst. cbn [files].
  rewrite lookup_insert_eq. split; [reflexivity|].
  cbn [i_created i_expires]. split; [reflexivity|]. split; [exact Hadd|].
  intros Hle. split.
  - destruct (datetime_add_24h_later _ _ Hv1 Hadd) as [_ Hgt].
    exact (datetime_gt_le_trans _ _ _ Hgt Hle).
  - exact (datetime_add_24h_mono _ _ _ Hv0 Hv1 Hle Hadd).
Qed.

Lemma created_and_expires_of_new_record_witness :
  exists w' entry,
    @on_generate_share_code xor_primitives [new_upload] true collision_world
    = Ok (tt, w')
    /\ files (st w') !! share_code_of (entropy collision_world) = Some entry
    /\ i_created entry = clock collision_world O
    /\ datetime_add (clock collision_world 1%nat) (timedelta_hours 24)
       = Ok (i_expires entry)
    /\ (datetime_le (clock collision_world O) (clock collision_world 1%nat) = true ->
        datetime_gt (i_expires entry) (i_created entry) = true
        /\ exists c24,
            datetime_add (i_created entry) (timedelta_hours 24) = Ok c24
            /\ datetime_le c24 (i_expires entry) = true).
Proof.
  apply (@created_and_expires_of_new_record xor_primitives [new_upload] true
           collision_world).
  - intros _. split; [exact xor_primitives_ok|]. intros i. reflexivity.
  - reflexivity.
  - reflexivity.
  - reflexivity.
Defined.

(** ** Unencrypted files *)

Lemma stored_plain `{Primitives} (key : bytes) (uploaded_files : list uploaded_file)
    (file_data : list file_entry) :
  Forall2 (stored_as false key) uploaded_files file_data ->
  file_data
  = map (fun file => mk_file (u_name file) (u_value file)
                       (N.of_nat (length (u_value file))) false)
        uploaded_files.
Proof.
  induction 1 as [|file entry l l' (Hn & Hs & He & Hd) _ IH]; [reflexivity|].
  cbn [map]. rewrite <- IH. f_equal. destruct entry; cbn in *. congruence.
Qed.

(** C10.  Without encryption the handler stores the uploaded bytes as they
    are; and for every stored entry whose encrypted flag is false, the
    download button of its row and its archive entry carry the stored bytes
    unchanged. *)
Theorem unencrypted_files_are_stored_and_served_verbatim `{Primitives}
    (uploaded_files : list uploaded_file) (w : world) :
  valid_datetime (clock w 1%nat) = true -> year (clock w 1%nat) < MAXYEAR ->
  (exists w' entry,
     on_generate_share_code uploaded_files false w = Ok (tt, w')
     /\ files (st w') !! share_code_of (entropy w) = Some entry
     /\ map f_data (i_files entry) = map u_value uploaded_files
     /\ map f_encrypted (i_files entry) = map (fun _ => false) uploaded_files)
  /\ forall code file_info file_data,
       f_encrypted file_data = false ->
       file_row code file_info file_data
       = download_button (f_data file_data) (f_name file_data)
       /\ zip_entry code file_info file_data
          = Ok (f_name file_data, f_data file_data).
Proof.
  intros Hvalid Hyear. split.
  - destruct (datetime_add_24h_ok _ Hvalid Hyear) as [e Hadd].
    destruct (on_generate_share_code_spec uploaded_files false w e
                ltac:(discriminate) Hadd)
      as (file_data & w' & Hrun & Hst & _ & _ & Hall).
    eexists w', _. split; [exact Hrun|]. rewrite Hst. cbn [files].
    rewrite lookup_insert_eq. split; [reflexivity|]. cbn [i_files].
    rewrite (stored_plain _ _ _ Hall), !map_map. cbn [f_data f_encrypted].
    split; reflexivity.
  - intros code file_info file_data Hplain.
    unfold file_row, zip_entry. rewrite Hplain. split; reflexivity.
Qed.

Lemma unencrypted_files_are_stored_and_served_verbatim_witness :
  (exists w' entry,
     @on_generate_share_code xor_primitives
       [new_upload; mk_upload "all.bin" all_bytes] false collision_world
     = Ok (tt, w')
     /\ files (st w') !! share_code_of (entropy collision_world) = Some entry
     /\ map f_data (i_files entry)
        = map u_value [new_upload; mk_upload "all.bin" all_bytes]
     /\ map f_encrypted (i_files entry)
        = map (fun _ => false) [new_upload; mk_upload "all.bin" all_bytes])
  /\ forall code file_info file_data,
       f_encrypted file_data = false ->
       @file_row xor_primitives code file_info file_data
       = download_button (f_data file_data) (f_name file_data)
       /\ @zip_entry xor_primitives code file_info file_data
          = Ok (f_name file_data, f_data file_data).
Proof.
  apply (@unencrypted_files_are_stored_and_served_verbatim xor_primitives
           [new_upload; mk_upload "all.bin" all_bytes] collision_world).
  - reflexivity.
  - reflexivity.
Defined.

(** Whatever the encryption choice, the row of a stored entry serves the
    bytes that were uploaded for it. *)
Lemma stored_entry_row `{Primitives} (use_encryption : bool) (code : string)
    (file_info : info) (file : uploaded_file) (entry : file_entry) :
  stored_as use_encryption
    (generate_encryption_key code (i_salt file_info)) file entry ->
  file_row code file_info entry = download_button (u_value file) (u_name file).
Proof.
  intros (Hn & _ & He & Hd). unfold file_row. rewrite He, Hn.
  destruct use_encryption; now rewrite Hd.
Qed.

(** ** Expiry *)

Lemma tail_drop_tape {A} (n : nat) (tape : nat -> A) :
  tail (drop_tape n tape) = drop_tape n (tail tape).
Proof.
  revert tape. induction n as [|n IH]; intros tape; [reflexivity|].
  cbn [drop_tape]. apply IH.
Qed.

(** The first loop of the cleanup: it only reads the clock, once per record;
    it returns codes of the dictionary, each at most once, and among them
    every code whose record is past its expiry at all of the readings. *)
Lemma collect_expired_spec (items : list (string * info)) :
  forall w,
    exists expired_codes,
      collect_expired items w
      = Ok (expired_codes, with_clock w (drop_tape (length items) (clock w)))
      /\ sublist expired_codes items.*1
      /\ (forall code file_info,
            (code, file_info) ∈ items ->
            (forall i, datetime_gt (clock w i) (i_expires file_info) = true) ->
            code ∈ expired_codes)
      /\ (forall code,
            code ∈ expired_codes ->
            exists file_info i,
              (code, file_info) ∈ items
              /\ datetime_gt (clock w i) (i_expires file_info) = true).
Proof.
  induction items as [|[code file_info] items IH]; intros w.
  - exists []. split; [destruct w; reflexivity|]. split; [constructor|].
    split.
    + intros c r Hin. inversion Hin.
    + intros c Hin. inversion Hin.
  - destruct (IH (with_clock w (tail (clock w))))
      as (codes & Hrun & Hsub & Hin & Hout).
    cbn [collect_expired]. unfold bind at 1. cbn [datetime_now].
    change (mk_world (st w) (SHARED_DATA_FILE w) (entropy w) (tail (clock w))
                     (epoch w))
      with (with_clock w (tail (clock w))).
    rewrite (bind_ok _ _ _ _ _ Hrun). cbn [ret with_clock clock st
      SHARED_DATA_FILE entropy epoch length drop_tape].
    eexists. split; [reflexivity|].
    destruct (datetime_gt (clock w O) (i_expires file_info)) eqn:Hgt.
    + split; [now constructor|]. split.
      * intros c r Hc Hall. apply elem_of_cons in Hc as [[= -> ->]|Hc].
        -- left.
        -- right. apply (Hin c r Hc). intros i. apply (Hall (S i)).
      * intros c Hc. apply elem_of_cons in Hc as [->|Hc].
        -- exists file_info, O. split; [left | exact Hgt].
        -- destruct (Hout c Hc) as (r & i & Hr & Hi).
           exists r, (S i). split; [now right | exact Hi].
    + split; [now constructor|]. split.
      * intros c r Hc Hall. apply elem_of_cons in Hc as [[= -> ->]|Hc].
        -- rewrite (Hall O) in Hgt. discriminate.
        -- apply (Hin c r Hc). intros i. apply (Hall (S i)).
      * intros c Hc. destruct (Hout c Hc) as (r & i & Hr & Hi).
        exists r, (S i). split; [now right | exact Hi].
Qed.

Lemma del_items_spec (codes : list string) :
  forall fs : gmap string info,
    NoDup codes -> (forall code, code ∈ codes -> is_Some (fs !! code)) ->
    exists fs',
      del_items codes fs = Ok fs'
      /\ forall code, fs' !! code = if decide (code ∈ codes) then None
                                   else fs !! code.
Proof.
  induction codes as [|c codes IH]; intros fs Hnd Hin.
  - exists fs. split; [reflexivity|]. intros code.
    destruct (decide (code ∈ [])) as [Hc|_]; [inversion Hc | reflexivity].
  - apply NoDup_cons in Hnd as [Hc Hnd].
    destruct (Hin c ltac:(left)) as [r Hr].
    destruct (IH (delete c fs) Hnd) as (fs' & Hrun & Hlook).
    { intros code Hcode. rewrite lookup_delete_ne.
      - apply Hin. now right.
      - intros ->. contradiction. }
    exists fs'. split.
    + cbn [del_items]. unfold del_item. rewrite Hr. exact Hrun.
    + intros code. rewrite Hlook.
      destruct (decide (code ∈ codes)) as [Hcs|Hcs].
      * rewrite decide_True; [reflexivity | now right].
      * destruct (decide (code = c)) as [->|Hne].
        -- rewrite decide_True by left. apply lookup_delete_eq.
        -- rewrite decide_False.
           ++ now apply lookup_delete_ne.
           ++ intros Hcode. apply elem_of_cons in Hcode as [?|?]; contradiction.
Qed.

(** The cleanup succeeds; it removes every record that is past its expiry at
    all the readings the loop takes, keeps every record that is past its
    expiry at none of them, and writes the result to the file. *)
Lemma cleanup_expired_spec (w : world) :
  exists fs' clk,
    cleanup_expired w
    = Ok (tt, mk_world (set_files (st w) fs') (Some (json_of_info <$> fs'))
                       (entropy w) clk (epoch w))
    /\ (forall code file_info,
          files (st w) !! code = Some file_info ->
          (forall i, datetime_gt (clock w i) (i_expires file_info) = true) ->
          fs' !! code = None)
    /\ (forall code file_info,
          files (st w) !! code = Some file_info ->
          (forall i, datetime_gt (clock w i) (i_expires file_info) = false) ->
          fs' !! code = Some file_info)
    /\ (forall code, fs' !! code = None \/ fs' !! code = files (st w) !! code).
Proof.
  destruct (collect_expired_spec (map_to_list (files (st w))) w)
    as (codes & Hrun & Hsub & Hin & Hout).
  destruct (del_items_spec codes (files (st w))) as (fs' & Hdel & Hlook).
  { eapply sublist_NoDup; [|exact Hsub]. apply NoDup_fst_map_to_list. }
  { intros code Hcode. destruct (Hout code Hcode) as (r & i & Hr & _).
    apply elem_of_map_to_list in Hr. eauto. }
  exists fs', (drop_tape (length (map_to_list (files (st w)))) (clock w)).
  split; [|split; [|split]].
  - unfold cleanup_expired. unfold bind at 1. cbn [get_state].
    rewrite (bind_ok _ _ _ _ _ Hrun). unfold bind at 1, lift.
    rewrite Hdel. unfold bind at 1. cbn [set_state].
    rewrite save_shared_data_ok. reflexivity.
  - intros code r Hr Hall. rewrite Hlook, decide_True; [reflexivity|].
    apply (Hin code r); [|exact Hall]. now apply elem_of_map_to_list.
  - intros code r Hr Hall. rewrite Hlook, decide_False; [exact Hr|].
    intros Hcode. destruct (Hout code Hcode) as (r' & i & Hr' & Hi).
    apply elem_of_map_to_list in Hr'. rewrite Hr in Hr'. injection Hr' as <-.
    rewrite Hall in Hi. discriminate.
  - intros code. rewrite Hlook. destruct (decide (code ∈ codes)); auto.
Qed.

(** C4.  Under a clock that never runs backwards, a record whose expiry lies
    before the reading the retrieve button takes is not handed out: the
    handler reports the expired code and leaves the session as it was,
    [current_download] included.  The cleanup that follows removes the
    record from the session and from the file. *)
Theorem expired_record_is_rejected_then_evicted (w : world) (code : string)
    (file_info : info) :
  monotone (clock w) ->
  files (st w) !! code = Some file_info ->
  datetime_gt (clock w O) (i_expires file_info) = true ->
  exists w1 w2 doc,
    on_retrieve_files code w = Ok (CodeExpired, w1)
    /\ st w1 = st w
    /\ cleanup_expired w1 = Ok (tt, w2)
    /\ files (st w2) !! code = None
    /\ SHARED_DATA_FILE w2 = Some doc /\ doc !! code = None.
Proof.
  intros Hmono Hcode Hgt.
  set (w1 := with_clock w (tail (clock w))).
  assert (Hretrieve : on_retrieve_files code w = Ok (CodeExpired, w1)).
  { unfold on_retrieve_files. unfold bind at 1. cbn [get_state].
    rewrite Hcode. unfold bind at 1. cbn [datetime_now]. now rewrite Hgt. }
  destruct (cleanup_expired_spec w1) as (fs' & clk & Hrun & Hgone & _ & _).
  eexists w1, _, _. split; [exact Hretrieve|]. split; [reflexivity|].
  split; [exact Hrun|].
  assert (Hnone : fs' !! code = None).
  { apply (Hgone code file_info); [exact Hcode|]. intros i.
    cbn [w1 with_clock clock]. unfold tail.
    apply (datetime_le_gt_trans' (clock w O)); [|exact Hgt].
    apply Hmono. lia. }
  cbn [st set_files files SHARED_DATA_FILE].
  split; [exact Hnone|]. split; [reflexivity|].
  now rewrite lookup_fmap, Hnone.
Qed.

Lemma expired_record_is_rejected_then_evicted_witness :
  exists w1 w2 doc,
    on_retrieve_files "271828" expired_world = Ok (CodeExpired, w1)
    /\ st w1 = st expired_world
    /\ cleanup_expired w1 = Ok (tt, w2)
    /\ files (st w2) !! "271828"%string = None
    /\ SHARED_DATA_FILE w2 = Some doc /\ doc !! "271828"%string = None.
Proof.
  apply (expired_record_is_rejected_then_evicted expired_world "271828"
           expired_info).
  - exact ticking_clock_monotone.
  - reflexivity.
  - reflexivity.
Defined.

(** Once its record is evicted, a code still held in [current_download]
    makes the file list raise [KeyError]. *)
Lemma available_files_after_eviction (w : world) (code : string) :
  current_download (st w) = Some code -> code <> ""%string ->
  files (st w) !! code = None ->
  available_files w = Raise KeyError.
Proof.
  intros Hcur Hne Hnone. unfold available_files, bind, get_state.
  rewrite Hcur. destruct (String.eqb_spec code ""); [contradiction|].
  now rewrite Hnone.
Qed.

(** ** Archives *)

(** C7, as stated, fails: for a record with two files named x.txt both
    builders return an archive, with two entries named x.txt. *)
Lemma zip_builders_accept_equal_names :
  @zip_all xor_primitives "000000" twin_info
  = Ok [("x.txt"%string, list_byte_of_string "1");
        ("x.txt"%string, list_byte_of_string "2")]
  /\ @zip_selected xor_primitives "000000" twin_info ["x.txt"%string]
     = Ok [("x.txt"%string, list_byte_of_string "1");
           ("x.txt"%string, list_byte_of_string "2")].
Proof. split; reflexivity. Qed.

Lemma rmap_zip_entry `{Primitives} (code : string) (file_info : info)
    (l : list file_entry) :
  Forall (fun file_data =>
            f_encrypted file_data = true ->
            exists data,
              decrypt_file (f_data file_data)
                (generate_encryption_key code (i_salt file_info)) = Ok data) l ->
  exists entries,
    rmap (zip_entry code file_info) l = Ok entries
    /\ map fst entries = map f_name l
    /\ Forall2 (fun file_data entry =>
                  f_encrypted file_data = false -> snd entry = f_data file_data)
               l entries.
Proof.
  induction 1 as [|file_data l Hd _ (entries & Hrun & Hnames & Hdata)].
  - exists []. repeat split. constructor.
  - cbn [rmap]. unfold zip_entry at 1.
    destruct (f_encrypted file_data) eqn:Henc.
    + destruct (Hd eq_refl) as [data Hdec]. rewrite Hdec. cbn [rbind].
      rewrite Hrun. eexists. split; [reflexivity|]. cbn [map fst].
      split; [now rewrite Hnames|].
      constructor; [cbn; congruence | exact Hdata].
    + cbn [rbind]. rewrite Hrun. eexists. split; [reflexivity|]. cbn [map fst].
      split; [now rewrite Hnames|]. constructor; [reflexivity | exact Hdata].
Qed.

(** C7, amended.  The two builders never compare names.  Whenever every
    encrypted file of the record decrypts, each returns an archive with one
    entry per file written ("selected" keeps the files whose name is in the
    selection, every one of them), in the order of the record and under the
    file's own name, equal names included. *)
Theorem zip_builders_write_every_name `{Primitives} (code : string)
    (file_info : info) (selected : list string) :
  Forall (fun file_data =>
            f_encrypted file_data = true ->
            exists data,
              decrypt_file (f_data file_data)
                (generate_encryption_key code (i_salt file_info)) = Ok data)
         (i_files file_info) ->
  (exists entries,
     zip_all code file_info = Ok entries
     /\ map fst entries = map f_name (i_files file_info))
  /\ (exists entries,
        zip_selected code file_info selected = Ok entries
        /\ map fst entries
           = List.filter (fun name => existsb (String.eqb name) selected)
                         (map f_name (i_files file_info))).
Proof.
  intros Hdec. split.
  - destruct (rmap_zip_entry code file_info _ Hdec) as (entries & Hrun & Hn & _).
    eauto.
  - destruct (rmap_zip_entry code file_info
                (List.filter (name_in selected) (i_files file_info)))
      as (entries & Hrun & Hn & _).
    { apply Forall_forall. intros file_data Hin.
      rewrite Forall_forall in Hdec. apply Hdec.
      apply list_elem_of_In in Hin. apply filter_In in Hin as [Hin _].
      now apply list_elem_of_In. }
    exists entries. split; [exact Hrun|]. rewrite Hn.
    clear. induction (i_files file_info) as [|file_data l IH]; [reflexivity|].
    cbn [List.filter map]. unfold name_in at 1.
    destruct (existsb (String.eqb (f_name file_data)) selected);
      cbn [map]; now rewrite IH.
Qed.

Lemma zip_builders_write_every_name_witness :
  (exists entries,
     @zip_all xor_primitives "000000" twin_info = Ok entries
     /\ map fst entries = map f_name (i_files twin_info))
  /\ (exists entries,
        @zip_selected xor_primitives "000000" twin_info ["x.txt"%string]
        = Ok entries
        /\ map fst entries
           = List.filter
               (fun name => existsb (String.eqb name) ["x.txt"%string])
               (map f_name (i_files twin_info))).
Proof.
  apply (@zip_builders_write_every_name xor_primitives "000000" twin_info
           ["x.txt"%string]).
  repeat constructor; discriminate.
Defined.

(** ** Key derivation *)

(** A [PBKDF2HMAC] object derives once. *)
Lemma kdf_derive_twice `{Primitives} (kdf kdf' : PBKDF2HMAC_object)
    (material material' derived : bytes) :
  kdf_derive kdf material = Ok (derived, kdf') ->
  kdf_derive kdf' material' = Raise AlreadyFinalized.
Proof.
  unfold kdf_derive. destruct (kdf_used kdf); [discriminate|].
  intros [= _ <-]. reflexivity.
Qed.



(** The key the receive tab derives from a stored record is the key the
    send handler encrypted with. *)
Lemma download_key_is_upload_key `{Primitives}
    (uploaded_files : list uploaded_file) (use_encryption : bool)
    (w w' : world) :
  on_generate_share_code uploaded_files use_encryption w = Ok (tt, w') ->
  exists code file_info,
    share_code (st w') = Some code
    /\ files (st w') !! code = Some file_info
    /\ encryption_key (st w')
       = Some (generate_encryption_key code (i_salt file_info)).
Proof.
  unfold on_generate_share_code.
  rewrite (bind_ok _ _ _ _ _ (generate_share_code_spec w)).
  rewrite (bind_ok _ _ _ _ _ (token_bytes_spec 16 _)).
  unfold bind at 1.
  destruct (forM _ _ _) as [[file_data w1]|err]; [|discriminate].
  unfold bind, datetime_now, lift, get_state, set_state.
  cbn [clock st SHARED_DATA_FILE entropy epoch].
  destruct (datetime_add _ _) as [e|err]; [|discriminate].
  rewrite save_shared_data_ok. intros [= <-]. cbn [st share_code files
    encryption_key].
  eexists _, _. split; [reflexivity|]. rewrite lookup_insert_eq.
  split; reflexivity.
Qed.

(** ** AES-128 and Fernet on concrete keys *)

(** FIPS 197, appendix C.1. *)
Example aes128_fips197_vector :
  AES128.cipher (map N.of_nat (seq 0 16)) (map (fun i => 17 * N.of_nat i) (seq 0 16))
  = [105; 196; 224; 216; 106; 123; 4; 48; 216; 205; 183; 128; 112; 180; 197; 90]
  /\ AES128.inv_cipher (map N.of_nat (seq 0 16))
       [105; 196; 224; 216; 106; 123; 4; 48; 216; 205; 183; 128; 112; 180; 197; 90]
     = map (fun i => 17 * N.of_nat i) (seq 0 16).
Proof. split; vm_compute; reflexivity. Qed.

(** The test vector of the Fernet specification: with AES-128 as the cipher
    and the vector's tag, the token is the published one. *)
Example fernet_spec_vector :
  match Fernet fernet_key_1 with
  | Ok f =>
      @_encrypt_from_parts (aes_primitives (fun _ _ => vector_tag)) f hello
        499162800 counting_iv
  | Raise e => Raise e
  end
  = Ok (list_byte_of_string
          "gAAAAAAdwJ6wAAECAwQFBgcICQoLDA0ODy021cpGVWKZ_eEwCGM4BLLF_5CV9dOPmrhuVUPgJobwOz7JcbmrR64jVmpU4IwqDA==").
Proof. vm_compute. reflexivity. Qed.

(** ** The wrong key *)

Lemma Fernet_key_0 : Fernet fernet_key_0 = Ok vector_fernet_0.
Proof. vm_compute. reflexivity. Qed.

Lemma Fernet_key_1 : Fernet fernet_key_1 = Ok vector_fernet_1.
Proof. vm_compute. reflexivity. Qed.

Lemma Fernet_key_2 : Fernet fernet_key_2 = Ok vector_fernet_2.
Proof. vm_compute. reflexivity. Qed.

Lemma fernet_keys_differ : fernet_key_1 <> fernet_key_2.
Proof. intros E. vm_compute in E. discriminate E. Qed.

Lemma not_hello_differs : not_hello <> hello.
Proof. intros E. vm_compute in E. discriminate E. Qed.

(** The block of the test vector, deciphered under its own AES key and
    under the AES key of the second Fernet key. *)
Lemma vector_block_deciphered (tag : bytes -> bytes -> bytes) :
  let iv := map byte_of_N (take_tape 16 (entropy vector_world)) in
  let ct := @cbc_encrypt (aes_primitives tag) (_encryption_key vector_fernet_1)
              iv (pkcs7_pad hello) in
  (let! padded := @cbc_decrypt (aes_primitives tag)
                    (_encryption_key vector_fernet_1) iv ct in
   match pkcs7_unpad padded with
   | Ok unpadded => Ok unpadded
   | Raise _ => Raise InvalidToken
   end) = Ok hello
  /\ (let! padded := @cbc_decrypt (aes_primitives tag)
                       (_encryption_key vector_fernet_2) iv ct in
      match pkcs7_unpad padded with
      | Ok unpadded => Ok unpadded
      | Raise _ => Raise InvalidToken
      end) = Ok not_hello.
Proof. vm_compute. split; reflexivity. Qed.

(** C3, as stated, fails: a key that differs from the encrypting key only in
    its second half (the AES key) passes the tag comparison, whatever the
    tag function is; for these two keys the padding of the wrongly deciphered
    block happens to be well formed, and [decrypt_file] returns fifteen
    bytes that are not the plaintext, without raising. *)
Lemma wrong_key_returns_other_bytes :
  fernet_key_1 <> fernet_key_2
  /\ not_hello <> hello
  /\ forall tag : bytes -> bytes -> bytes,
       (forall key msg, length (tag key msg) = 32%nat) ->
       exists token w',
         @encrypt_file (aes_primitives tag) hello fernet_key_1 vector_world
         = Ok (token, w')
         /\ @decrypt_file (aes_primitives tag) token fernet_key_1 = Ok hello
         /\ @decrypt_file (aes_primitives tag) token fernet_key_2 = Ok not_hello.
Proof.
  split; [exact fernet_keys_differ|]. split; [exact not_hello_differs|].
  intros tag Htag.
  destruct (vector_block_deciphered tag) as [H1 H2].
  eexists _, _. split.
  { apply (@encrypt_file_spec (aes_primitives tag) hello fernet_key_1 _ _
             Fernet_key_1).
    reflexivity. }
  cbv zeta. unfold decrypt_file. rewrite Fernet_key_1, Fernet_key_2.
  cbn [rbind].
  rewrite !(@fernet_decrypt_token (aes_primitives tag))
    by (try apply big_endian_length; try apply Htag; reflexivity).
  change (_signing_key vector_fernet_2) with (_signing_key vector_fernet_1).
  rewrite !bytes_eqb_refl.
  split; [exact H1 | exact H2].
Qed.

(** C3, amended.  Decrypting a token with a key whose signing half gives a
    tag for the token's body other than the tag the token carries fails
    with [InvalidToken]; nothing is deciphered.  (A key that gives the same
    tag is not rejected at this point.) *)
Theorem decrypt_file_rejects_other_tag `{Primitives} (p k1 k2 : bytes)
    (f1 f2 : fernet) (w : world) :
  (forall key msg, length (hmac_sha256 key msg) = 32%nat) ->
  Fernet k1 = Ok f1 -> Fernet k2 = Ok f2 ->
  epoch w O < 2 ^ 64 ->
  let iv := map byte_of_N (take_tape 16 (entropy w)) in
  let body := basic_parts (big_endian 8 (epoch w O)) iv
                (cbc_encrypt (_encryption_key f1) iv (pkcs7_pad p)) in
  hmac_sha256 (_signing_key f2) body <> hmac_sha256 (_signing_key f1) body ->
  exists token w',
    encrypt_file p k1 w = Ok (token, w')
    /\ decrypt_file token k2 = Raise InvalidToken.
Proof.
  intros Htag Hf1 Hf2 Hts iv body Hne.
  eexists _, _. split; [exact (encrypt_file_spec p k1 f1 w Hf1 Hts)|].
  cbv zeta. fold iv. fold body.
  unfold decrypt_file. rewrite Hf2. cbn [rbind]. unfold body at 1.
  rewrite fernet_decrypt_token
    by (try apply big_endian_length; try apply Htag;
        unfold iv; now rewrite length_map, length_take_tape).
  fold body.
  destruct (bytes_eqb (hmac_sha256 (_signing_key f2) body)
                      (hmac_sha256 (_signing_key f1) body)) eqn:E;
    [|reflexivity].
  apply bytes_eqb_eq in E. contradiction.
Qed.

Lemma decrypt_file_rejects_other_tag_witness :
  exists token w',
    @encrypt_file xor_primitives hello fernet_key_1 vector_world = Ok (token, w')
    /\ @decrypt_file xor_primitives token fernet_key_0 = Raise InvalidToken.
Proof.
  apply (@decrypt_file_rejects_other_tag xor_primitives hello fernet_key_1
           fernet_key_0 vector_fernet_1 vector_fernet_0 vector_world).
  - intros key msg. apply big_endian_length.
  - exact Fernet_key_1.
  - exact Fernet_key_0.
  - reflexivity.
  - intros E. vm_compute in E. discriminate E.
Defined.

(** * Further properties of the script *)

(** ** Failing steps *)

Lemma bind_inv {A B} (m : M A) (k : A -> M B) (w w' : world) (b : B) :
  bind m k w = Ok (b, w') ->
  exists a w1, m w = Ok (a, w1) /\ k a w1 = Ok (b, w').
Proof.
  unfold bind. destruct (m w) as [[a w1]|e]; [|discriminate]. eauto.
Qed.

Lemma bind_raise {A B} (m : M A) (k : A -> M B) (w : world) (e : exn) :
  m w = Raise e -> bind m k w = Raise e.
Proof. intros Hm. unfold bind. now rewrite Hm. Qed.

Lemma rmap_raise {A B} (f : A -> result B) (l : list A) (a : A) (e : exn) :
  a ∈ l -> f a = Raise e -> exists e', rmap f l = Raise e'.
Proof.
  induction l as [|x l IH]; intros Hin Hf; [inversion Hin|].
  cbn [rmap]. destruct (f x) as [b|e0] eqn:Hx; [|eauto].
  apply elem_of_cons in Hin as [->|Hin]; [congruence|].
  destruct (IH Hin Hf) as [e' He']. rewrite He'. eauto.
Qed.

Lemma map_rmap_raise {A B} (f : A -> result B) (m : gmap string A)
    (k : string) (a : A) (e : exn) :
  m !! k = Some a -> f a = Raise e -> exists e', map_rmap f m = Raise e'.
Proof.
  intros Hk Hf. unfold map_rmap.
  destruct (rmap_raise (fun kv => let! b := f (snd kv) in Ok (fst kv, b))
              (map_to_list m) (k, a) e) as [e' He'].
  - now apply elem_of_map_to_list.
  - cbn. now rewrite Hf.
  - rewrite He'. eauto.
Qed.

Lemma load_info_bad_base64 (entry : json_info) :
  (exists e, b64decode_str (j_salt entry) = Raise e)
  \/ (exists file e,
        file ∈ j_files entry /\ b64decode_str (j_data file) = Raise e) ->
  exists e', load_info entry = Raise e'.
Proof.
  unfold load_info. intros [[e He]|(file & e & Hin & He)].
  - rewrite He. cbn [rbind]. eauto.
  - destruct (b64decode_str (j_salt entry)); cbn [rbind]; [|eauto].
    destruct (fromisoformat (j_created entry)); cbn [rbind]; [|eauto].
    destruct (fromisoformat (j_expires entry)); cbn [rbind]; [|eauto].
    destruct (rmap_raise load_file (j_files entry) file e Hin) as [e' He'].
    + unfold load_file. now rewrite He.
    + rewrite He'. cbn [rbind]. eauto.
Qed.

(** One record of the file whose salt, or one of whose payloads, is not
    base64 text (a character outside ASCII, or alphabet characters that stop
    inside a group of four) makes [load_shared_data] raise, whatever the
    other records are; and since the script loads the file before anything
    else, every run raises, whatever is clicked. *)
Theorem bad_base64_record_fails_every_run `{Primitives} (w : world)
    (doc : gmap string json_info) (code : string) (entry : json_info) :
  SHARED_DATA_FILE w = Some doc -> doc !! code = Some entry ->
  (exists e, b64decode_str (j_salt entry) = Raise e)
  \/ (exists file e,
        file ∈ j_files entry /\ b64decode_str (j_data file) = Raise e) ->
  (exists e', load_shared_data w = Raise e')
  /\ forall ui, exists e', main ui w = Raise e'.
Proof.
  intros Hdoc Hcode Hbad.
  destruct (load_info_bad_base64 entry Hbad) as [e Hentry].
  assert (Hload : exists e', load_shared_data w = Raise e').
  { destruct (map_rmap_raise load_info doc code entry e Hcode Hentry)
      as [e' He'].
    exists e'. unfold load_shared_data, bind, read_file, lift.
    now rewrite Hdoc, He'. }
  split; [exact Hload|]. intros ui. destruct Hload as [e' He'].
  exists e'. unfold main. now apply bind_raise.
Qed.

Lemma bad_base64_record_fails_every_run_witness :
  (exists e', load_shared_data bad_salt_world = Raise e')
  /\ forall ui, exists e', @main xor_primitives ui bad_salt_world = Raise e'.
Proof.
  apply (@bad_base64_record_fails_every_run xor_primitives bad_salt_world
           bad_salt_document "314159" bad_salt_entry).
  - reflexivity.
  - reflexivity.
  - left. exists BinasciiError. reflexivity.
Defined.

(** ** The sweep *)

Lemma datetime_gt_irrefl (t : datetime) : datetime_gt t t = false.
Proof.
  pose proof (datetime_le_refl t) as H. unfold datetime_le in H.
  now destruct (datetime_gt t t).
Qed.

(** The cleanup always runs to its end.  It touches nothing of the session
    but [files]; it never adds a record and never changes one; it keeps every
    record that none of its clock readings finds expired, a record whose
    expiry is exactly the reading included; what it writes to the file is
    what it leaves in the session.  Under a clock that stands still at [t]
    the records left are exactly those with [not (t > expires)]. *)
Theorem cleanup_expired_only_removes_expired (w : world) :
  exists w',
    cleanup_expired w = Ok (tt, w')
    /\ share_code (st w') = share_code (st w)
    /\ encryption_key (st w') = encryption_key (st w)
    /\ current_download (st w') = current_download (st w)
    /\ SHARED_DATA_FILE w' = Some (json_of_info <$> files (st w'))
    /\ (forall code file_info,
          files (st w') !! code = Some file_info ->
          files (st w) !! code = Some file_info)
    /\ (forall code file_info,
          files (st w) !! code = Some file_info ->
          (forall i, datetime_gt (clock w i) (i_expires file_info) = false) ->
          files (st w') !! code = Some file_info)
    /\ (forall code file_info,
          files (st w) !! code = Some file_info ->
          (forall i, clock w i = i_expires file_info) ->
          files (st w') !! code = Some file_info)
    /\ (forall t,
          (forall i, clock w i = t) ->
          files (st w')
          = filter (fun kv => datetime_gt t (i_expires kv.2) = false)
                   (files (st w))).
Proof.
  destruct (cleanup_expired_spec w) as (fs' & clk & Hrun & Hgone & Hkept & Hsub).
  eexists. split; [exact Hrun|]. cbn [st SHARED_DATA_FILE set_files share_code
    encryption_key current_download files].
  do 4 (split; [reflexivity|]).
  assert (Hback : forall code file_info,
             fs' !! code = Some file_info ->
             files (st w) !! code = Some file_info).
  { intros code r Hr. destruct (Hsub code) as [E|E]; congruence. }
  split; [exact Hback|]. split; [exact Hkept|]. split.
  { intros code r Hr Hclk. apply (Hkept code r Hr). intros i.
    rewrite Hclk. apply datetime_gt_irrefl. }
  intros t Ht. apply map_eq. intros code. apply option_eq. intros r.
  rewrite map_lookup_filter_Some. cbn [snd]. split.
  - intros Hr. pose proof (Hback code r Hr) as Hr0. split; [exact Hr0|].
    destruct (datetime_gt t (i_expires r)) eqn:Hgt; [|reflexivity].
    rewrite (Hgone code r Hr0) in Hr; [discriminate|].
    intros i. now rewrite Ht.
  - intros [Hr Hgt]. apply (Hkept code r Hr). intros i. now rewrite Ht.
Qed.

(** ** A session that holds an evicted code *)

Lemma load_shared_data_json (w : world) (fs : gmap string info) :
  SHARED_DATA_FILE w = Some (json_of_info <$> fs) -> valid_files fs ->
  load_shared_data w = Ok (tt, with_state w (set_files (st w) fs)).
Proof.
  destruct w as [s d ent clk ep]. cbn [SHARED_DATA_FILE]. intros -> Hv.
  now apply load_shared_data_saved.
Qed.

Lemma load_shared_data_no_file (w : world) :
  SHARED_DATA_FILE w = None -> load_shared_data w = Ok (tt, w).
Proof.
  intros Hd. unfold load_shared_data, bind, read_file. now rewrite Hd.
Qed.

Section ScriptFacts.
Context `{Primitives}.

Lemma send_column_idle (ui : widgets) (w : world) :
  st_button ui GenerateShareCode = false -> send_column ui w = Ok (tt, w).
Proof.
  intros Hb. unfold send_column. rewrite Hb. now destruct (uploaded_files ui).
Qed.

Lemma share_code_column_idle (ui : widgets) (w : world) :
  st_button ui GenerateNewCode = false ->
  share_code_column ui w = Ok ((truthy (share_code (st w)), false), w).
Proof.
  intros Hb. unfold share_code_column, bind, get_state. rewrite Hb.
  now destruct (truthy (share_code (st w))).
Qed.

Lemma receive_column_idle (ui : widgets) (w : world) :
  st_button ui RetrieveFiles = false -> receive_column ui w = Ok (None, w).
Proof. intros Hb. unfold receive_column. now rewrite Hb. Qed.

Lemma download_column_stale (ui : widgets) (w : world) (code : string) :
  current_download (st w) = Some code -> code <> ""%string ->
  files (st w) !! code = None ->
  download_column ui w = Raise KeyError.
Proof.
  intros Hcur Hne Hnone. unfold download_column, bind, get_state.
  rewrite Hcur. cbn [truthy]. destruct (String.eqb_spec code ""); [contradiction|].
  now rewrite Hnone.
Qed.

End ScriptFacts.

(** When the sweep removes the record a session is looking at (its code is
    still in [current_download]), the next run of that session in which no
    button is clicked raises [KeyError] at [st.session_state.files[code]],
    before it reaches the cleanup. *)
Theorem evicted_download_breaks_next_run `{Primitives} (w : world)
    (code : string) (file_info : info) (ui : widgets) :
  valid_files (files (st w)) ->
  current_download (st w) = Some code -> code <> ""%string ->
  files (st w) !! code = Some file_info ->
  (forall i, datetime_gt (clock w i) (i_expires file_info) = true) ->
  clicked ui = None ->
  exists w',
    cleanup_expired w = Ok (tt, w')
    /\ files (st w') !! code = None
    /\ main ui w' = Raise KeyError.
Proof.
  intros Hvalid Hcur Hne Hcode Hexp Hidle.
  destruct (cleanup_expired_spec w) as (fs' & clk & Hrun & Hgone & _ & Hsub).
  eexists. split; [exact Hrun|].
  pose proof (Hgone code file_info Hcode Hexp) as Hnone.
  split; [exact Hnone|].
  assert (Hvalid' : valid_files fs').
  { intros c r Hr. apply (Hvalid c). destruct (Hsub c) as [E|E]; congruence. }
  assert (Hb : forall b, st_button ui b = false).
  { intros b. unfold st_button. now rewrite Hidle. }
  unfold main.
  erewrite bind_ok by (apply (load_shared_data_json _ fs'); [reflexivity | exact Hvalid']).
  erewrite bind_ok by (apply send_column_idle, Hb).
  erewrite bind_ok by (apply share_code_column_idle, Hb).
  cbn [snd].
  erewrite bind_ok by (apply receive_column_idle, Hb).
  apply bind_raise. apply (download_column_stale ui _ code).
  - cbn [with_state st set_files current_download]. exact Hcur.
  - exact Hne.
  - cbn [with_state st set_files files]. exact Hnone.
Qed.

Lemma evicted_download_breaks_next_run_witness :
  exists w',
    @cleanup_expired viewing_world = Ok (tt, w')
    /\ files (st w') !! "271828"%string = None
    /\ @main xor_primitives idle w' = Raise KeyError.
Proof.
  apply (@evicted_download_breaks_next_run xor_primitives viewing_world
           "271828" expired_info idle).
  - apply map_Forall_singleton. reflexivity.
  - reflexivity.
  - discriminate.
  - reflexivity.
  - intros i. reflexivity.
  - reflexivity.
Defined.

(** ** Decryption errors on the two download paths *)

(** An encrypted entry that does not decrypt shows "Decryption failed" in
    its own row of the file list, while the rows of the other files are
    built as usual; on the ZIP paths nothing catches the error, so "Download
    All" raises, and so does "Download Selected" when the entry's name is
    selected. *)
Theorem failed_decryption_is_caught_in_rows_only `{Primitives} (code : string)
    (file_info : info) (file_data : file_entry) (e : exn)
    (selected_names : list string) :
  file_data ∈ i_files file_info ->
  f_encrypted file_data = true ->
  decrypt_file (f_data file_data)
    (generate_encryption_key code (i_salt file_info)) = Raise e ->
  file_row code file_info file_data = decryption_failed
  /\ length (map (file_row code file_info) (i_files file_info))
     = length (i_files file_info)
  /\ (exists e', zip_all code file_info = Raise e')
  /\ (name_in selected_names file_data = true ->
      exists e', zip_selected code file_info selected_names = Raise e').
Proof.
  intros Hin Henc Hdec.
  assert (Hentry : zip_entry code file_info file_data = Raise e).
  { unfold zip_entry. now rewrite Henc, Hdec. }
  split; [unfold file_row; now rewrite Henc, Hdec|].
  split; [apply length_map|]. split.
  - exact (rmap_raise _ _ _ _ Hin Hentry).
  - intros Hsel. apply (rmap_raise _ _ file_data e); [|exact Hentry].
    apply list_elem_of_In, filter_In. split; [|exact Hsel].
    now apply list_elem_of_In.
Qed.

Lemma failed_decryption_is_caught_in_rows_only_witness :
  @file_row xor_primitives "000000" damaged_info
    (mk_file "b.txt" (list_byte_of_string "not a token") 5 true)
  = decryption_failed
  /\ length (map (@file_row xor_primitives "000000" damaged_info)
               (i_files damaged_info))
     = length (i_files damaged_info)
  /\ (exists e', @zip_all xor_primitives "000000" damaged_info = Raise e')
  /\ (name_in ["b.txt"%string]
        (mk_file "b.txt" (list_byte_of_string "not a token") 5 true) = true ->
      exists e',
        @zip_selected xor_primitives "000000" damaged_info ["b.txt"%string]
        = Raise e').
Proof.
  apply (@failed_decryption_is_caught_in_rows_only xor_primitives "000000"
           damaged_info
           (mk_file "b.txt" (list_byte_of_string "not a token") 5 true)
           InvalidToken ["b.txt"%string]).
  - right. left.
  - reflexivity.
  - destruct (@Fernet_generated_key xor_primitives xor_primitives_ok
                "000000" (i_salt damaged_info)) as (f & Hf & _).
    unfold decrypt_file. rewrite Hf. reflexivity.
Defined.

(** ** The two archives *)

Lemma rmap_filter {A B} (f : A -> result B) (P : A -> bool) (Q : B -> bool)
    (l : list A) (l' : list B) :
  (forall a b, f a = Ok b -> Q b = P a) ->
  rmap f l = Ok l' ->
  rmap f (List.filter P l) = Ok (List.filter Q l').
Proof.
  intros HPQ. revert l'. induction l as [|a l IH]; intros l' Hrun.
  - injection Hrun as <-. reflexivity.
  - cbn [rmap] in Hrun. destruct (f a) as [b|e] eqn:Ha; [|discriminate].
    cbn [rbind] in Hrun. destruct (rmap f l) as [bs|e]; [|discriminate].
    injection Hrun as <-. cbn [List.filter]. rewrite (HPQ a b Ha).
    destruct (P a).
    + cbn [rmap]. now rewrite Ha, (IH bs eq_refl).
    + now apply IH.
Qed.

Lemma zip_entry_name `{Primitives} (code : string) (file_info : info)
    (file_data : file_entry) (entry : string * bytes) :
  zip_entry code file_info file_data = Ok entry ->
  fst entry = f_name file_data.
Proof.
  unfold zip_entry.
  destruct (if f_encrypted file_data then _ else _) as [d|e];
    [|discriminate].
  now intros [= <-].
Qed.

(** Whenever "Download All" can build its archive, "Download Selected"
    builds the same archive with the entries of unselected names left out:
    same order, same bytes, and every file of a selected name, however many
    carry it.  A selection that names every file gives the archive of
    "Download All". *)
Theorem selected_archive_is_filtered_full_archive `{Primitives} (code : string)
    (file_info : info) (selected_names : list string)
    (archive : list (string * bytes)) :
  zip_all code file_info = Ok archive ->
  zip_selected code file_info selected_names
  = Ok (List.filter (fun entry => existsb (String.eqb (fst entry)) selected_names)
                    archive)
  /\ (Forall (fun file_data => name_in selected_names file_data = true)
             (i_files file_info) ->
      zip_selected code file_info selected_names = Ok archive).
Proof.
  intros Hall. split.
  - unfold zip_selected. apply rmap_filter; [|exact Hall].
    intros file_data entry Hentry. unfold name_in.
    now rewrite (zip_entry_name _ _ _ _ Hentry).
  - intros Hsel. unfold zip_selected.
    replace (List.filter (name_in selected_names) (i_files file_info))
      with (i_files file_info); [exact Hall|].
    clear Hall. induction Hsel as [|file_data l Hf _ IH]; [reflexivity|].
    cbn [List.filter]. now rewrite Hf, <- IH.
Qed.

Lemma selected_archive_is_filtered_full_archive_witness :
  @zip_selected xor_primitives "042137"
     (mk_info [ mk_file "a" hello 5 false; mk_file "b" not_hello 15 false;
                mk_file "a" [] 0 false ] [] (mk_datetime 2024 3 1 9 0 0 0)
              (mk_datetime 2024 3 2 9 0 0 0))
     ["a"%string]
  = Ok (List.filter (fun entry => existsb (String.eqb (fst entry)) ["a"%string])
          [("a"%string, hello); ("b"%string, not_hello); ("a"%string, [])])
  /\ (Forall (fun file_data => name_in ["a"%string] file_data = true)
        [ mk_file "a" hello 5 false; mk_file "b" not_hello 15 false;
          mk_file "a" [] 0 false ] ->
      @zip_selected xor_primitives "042137"
        (mk_info [ mk_file "a" hello 5 false; mk_file "b" not_hello 15 false;
                   mk_file "a" [] 0 false ] [] (mk_datetime 2024 3 1 9 0 0 0)
                 (mk_datetime 2024 3 2 9 0 0 0))
        ["a"%string]
      = Ok [("a"%string, hello); ("b"%string, not_hello); ("a"%string, [])]).
Proof.
  apply (@selected_archive_is_filtered_full_archive xor_primitives "042137"
           (mk_info [ mk_file "a" hello 5 false; mk_file "b" not_hello 15 false;
                      mk_file "a" [] 0 false ] [] (mk_datetime 2024 3 1 9 0 0 0)
                    (mk_datetime 2024 3 2 9 0 0 0))
           ["a"%string]).
  reflexivity.
Defined.

(** ** Whole runs *)

Lemma share_code_of_not_empty (tape : nat -> N) :
  String.eqb (share_code_of tape) "" = false.
Proof.
  pose proof (share_code_of_format tape) as Hf. unfold is_share_code in Hf.
  apply andb_true_iff in Hf as [Hlen _].
  destruct (share_code_of tape); [discriminate | reflexivity].
Qed.

Section RunFacts.
Context `{Primitives}.

Lemma download_column_none (ui : widgets) (w : world) :
  truthy (current_download (st w)) = None ->
  download_column ui w = Ok (([], None, None), w).
Proof.
  intros Hcur. unfold download_column, bind, get_state. now rewrite Hcur.
Qed.

(** The file list for a code that is in [files], in a run in which neither
    ZIP button is clicked. *)
Lemma download_column_rows (ui : widgets) (w : world) (code : string)
    (file_info : info) :
  truthy (current_download (st w)) = Some code ->
  files (st w) !! code = Some file_info ->
  st_button ui DownloadSelectedAsZip = false ->
  st_button ui DownloadAllAsZip = false ->
  download_column ui w
  = Ok ((map (file_row code file_info) (i_files file_info), None, None), w).
Proof.
  intros Hcur Hcode Hsel Hall. unfold download_column, bind, get_state.
  rewrite Hcur, Hcode, Hsel, Hall.
  destruct (1 <? length (i_files file_info))%nat; [|reflexivity].
  now destruct (selected ui).
Qed.

Lemma on_retrieve_files_live (w : world) (code : string) (file_info : info) :
  files (st w) !! code = Some file_info ->
  datetime_gt (clock w O) (i_expires file_info) = false ->
  on_retrieve_files code w
  = Ok (FilesFound,
        mk_world (mk_session (files (st w)) (share_code (st w))
                             (encryption_key (st w)) (Some code))
                 (SHARED_DATA_FILE w) (entropy w) (tail (clock w)) (epoch w)).
Proof.
  intros Hcode Hlive. unfold on_retrieve_files, bind, get_state.
  rewrite Hcode. cbn [datetime_now]. now rewrite Hlive.
Qed.

(** A run in which the retrieve button is clicked with a code that the file
    holds and that is not past its expiry. *)
Lemma retrieve_run (ui : widgets) (w : world) (fs : gmap string info)
    (code : string) (file_info : info) :
  SHARED_DATA_FILE w = Some (json_of_info <$> fs) -> valid_files fs ->
  fs !! code = Some file_info -> String.eqb code "" = false ->
  datetime_gt (clock w O) (i_expires file_info) = false ->
  clicked ui = Some RetrieveFiles -> receive_code ui = code ->
  exists w',
    main ui w
    = Ok (mk_page (truthy (share_code (st w))) (Some FilesFound)
                  (map (file_row code file_info) (i_files file_info))
                  None None false, w')
    /\ current_download (st w') = Some code.
Proof.
  intros Hdoc Hvalid Hcode Hne Hlive Hclick Hrc.
  assert (Hb : forall b, b <> RetrieveFiles -> st_button ui b = false).
  { intros b Hbne. unfold st_button. rewrite Hclick. now destruct b. }
  assert (Hr : st_button ui RetrieveFiles = true).
  { unfold st_button. now rewrite Hclick. }
  unfold main.
  erewrite bind_ok by (apply (load_shared_data_json _ fs); assumption).
  erewrite bind_ok by (apply send_column_idle, Hb; discriminate).
  erewrite bind_ok by (apply share_code_column_idle, Hb; discriminate).
  cbn [snd fst with_state st set_files share_code].
  unfold receive_column. rewrite Hr, Hrc.
  erewrite bind_ok.
  2:{ erewrite bind_ok; [reflexivity|].
      apply (on_retrieve_files_live _ code file_info); [exact Hcode | exact Hlive]. }
  erewrite bind_ok.
  2:{ apply (download_column_rows _ _ code file_info).
      - cbn [st current_download truthy]. now rewrite Hne.
      - exact Hcode.
      - apply Hb. discriminate.
      - apply Hb. discriminate. }
  match goal with |- context [bind cleanup_expired _ ?w0] =>
    destruct (cleanup_expired_spec w0) as (fs' & clk & Hclean & _) end.
  erewrite bind_ok by exact Hclean. cbn [ret fst snd].
  eexists. split; reflexivity.
Qed.

End RunFacts.

Lemma load_shared_data_starts_from (w : world) (fs : gmap string info) :
  starts_from w fs -> valid_files fs ->
  load_shared_data w = Ok (tt, with_state w (set_files (st w) fs)).
Proof.
  intros [Hdoc|[Hnone Hfs]] Hvalid.
  - now apply load_shared_data_json.
  - rewrite load_shared_data_no_file by exact Hnone. subst fs.
    destruct w as [[fs sc ek cd] d ent clk ep]. reflexivity.
Qed.

Lemma rows_of_stored `{Primitives} (use_enc : bool) (code : string)
    (file_info : info) (uploads : list uploaded_file)
    (entries : list file_entry) :
  Forall2 (stored_as use_enc
             (generate_encryption_key code (i_salt file_info)))
          uploads entries ->
  map (file_row code file_info) entries
  = map (fun file => download_button (u_value file) (u_name file)) uploads.
Proof.
  induction 1 as [|file entry l l' Hs _ IH]; [reflexivity|].
  cbn [map]. now rewrite (stored_entry_row _ _ _ _ _ Hs), IH.
Qed.

(** A run in which "Generate Share Code" is clicked and that ends before
    the new record expires. *)
Lemma generate_run `{Primitives} (ui : widgets) (w : world)
    (fs0 : gmap string info) (e : datetime) :
  starts_from w fs0 -> valid_files fs0 ->
  truthy (current_download (st w)) = None ->
  uploaded_files ui <> [] -> clicked ui = Some GenerateShareCode ->
  (use_encryption ui = true -> PrimitivesOk /\ forall i, epoch w i < 2 ^ 64) ->
  valid_datetime (clock w O) = true -> valid_datetime (clock w 1%nat) = true ->
  datetime_add (clock w 1%nat) (timedelta_hours 24) = Ok e ->
  (forall i, datetime_gt (clock w i) e = false) ->
  let code := share_code_of (entropy w) in
  exists w1 fs1 file_data,
    main ui w = Ok (mk_page (Some code) None [] None None false, w1)
    /\ SHARED_DATA_FILE w1 = Some (json_of_info <$> fs1)
    /\ valid_files fs1
    /\ fs1 !! code
       = Some (mk_info file_data (salt_of (entropy w)) (clock w O) e)
    /\ Forall2 (stored_as (use_encryption ui)
                  (generate_encryption_key code (salt_of (entropy w))))
               (uploaded_files ui) file_data.
Proof.
  intros Hstart Hvalid Hcur Hups Hclick Hprims Hv0 Hv1 Hadd Hlive code.
  assert (Hb : forall b, b <> GenerateShareCode -> st_button ui b = false).
  { intros b Hbne. unfold st_button. rewrite Hclick. now destruct b. }
  assert (Hg : st_button ui GenerateShareCode = true).
  { unfold st_button. now rewrite Hclick. }
  set (w0 := with_state w (set_files (st w) fs0)).
  destruct (on_generate_share_code_spec (uploaded_files ui) (use_encryption ui)
              w0 e Hprims Hadd)
    as (file_data & wa & Hgen & Hst & _ & Hclk & Hall).
  cbn [w0 with_state entropy clock st set_files files current_download] in Hst, Hclk, Hall.
  fold code in Hst, Hall.
  unfold main.
  erewrite bind_ok by (apply (load_shared_data_starts_from _ fs0); assumption).
  fold w0.
  erewrite bind_ok.
  2:{ unfold send_column. rewrite Hg.
      destruct (uploaded_files ui) eqn:E; [contradiction | exact Hgen]. }
  erewrite bind_ok by (apply share_code_column_idle, Hb; discriminate).
  rewrite Hst. cbn [snd fst share_code truthy]. fold code.
  unfold code at 1. rewrite share_code_of_not_empty. fold code.
  erewrite bind_ok by (apply receive_column_idle, Hb; discriminate).
  erewrite bind_ok
    by (apply download_column_none; rewrite Hst; cbn [current_download];
        exact Hcur).
  destruct (cleanup_expired_spec wa) as (fs' & clk & Hclean & _ & Hkept & Hsub).
  erewrite bind_ok by exact Hclean. cbn [ret fst snd].
  eexists _, fs', file_data. split; [reflexivity|].
  cbn [SHARED_DATA_FILE]. split; [reflexivity|].
  assert (Hentry : valid_info (mk_info file_data (salt_of (entropy w))
                                       (clock w O) e) = true).
  { unfold valid_info. cbn [i_created i_expires]. rewrite Hv0.
    now destruct (datetime_add_24h_later _ _ Hv1 Hadd) as [-> _]. }
  split; [|split; [|exact Hall]].
  - intros c r Hr. destruct (Hsub c) as [E|E]; [congruence|].
    rewrite E, Hst in Hr. cbn [files] in Hr.
    destruct (decide (c = code)) as [->|Hne].
    + rewrite lookup_insert_eq in Hr. now injection Hr as <-.
    + rewrite lookup_insert_ne in Hr by congruence. exact (Hvalid c r Hr).
  - apply Hkept.
    + rewrite Hst. cbn [files]. apply lookup_insert_eq.
    + intros i. rewrite Hclk. cbn [i_expires]. unfold tail. apply Hlive.
Qed.

(** From one session to another.  A sender uploads files and clicks
    "Generate Share Code"; the run shows the code.  In any session that then
    runs on the same file, entering that code into the text field and
    clicking "Retrieve Files" before the expiry reports that the files were
    found and lists one download button per uploaded file, in the order of
    the upload, each under the uploaded name and carrying the uploaded
    bytes, encrypted or not. *)
Theorem shared_files_reach_another_session `{Primitives} (ui : widgets)
    (w : world) (fs0 : gmap string info) (e : datetime) :
  starts_from w fs0 -> valid_files fs0 ->
  truthy (current_download (st w)) = None ->
  uploaded_files ui <> [] -> clicked ui = Some GenerateShareCode ->
  (use_encryption ui = true -> PrimitivesOk /\ forall i, epoch w i < 2 ^ 64) ->
  valid_datetime (clock w O) = true -> valid_datetime (clock w 1%nat) = true ->
  datetime_add (clock w 1%nat) (timedelta_hours 24) = Ok e ->
  (forall i, datetime_gt (clock w i) e = false) ->
  exists w1,
    main ui w
    = Ok (mk_page (Some (share_code_of (entropy w))) None [] None None false, w1)
    /\ forall (ui' : widgets) (w' : world),
         SHARED_DATA_FILE w' = SHARED_DATA_FILE w1 ->
         datetime_gt (clock w' O) e = false ->
         clicked ui' = Some RetrieveFiles ->
         receive_code ui' = share_code_of (entropy w) ->
         exists w'',
           main ui' w'
           = Ok (mk_page (truthy (share_code (st w'))) (Some FilesFound)
                   (map (fun file =>
                           download_button (u_value file) (u_name file))
                        (uploaded_files ui))
                   None None false, w'').
Proof.
  intros Hstart Hvalid Hcur Hups Hclick Hprims Hv0 Hv1 Hadd Hlive.
  destruct (generate_run ui w fs0 e Hstart Hvalid Hcur Hups Hclick Hprims Hv0
              Hv1 Hadd Hlive)
    as (w1 & fs1 & file_data & Hrun & Hdoc & Hvalid1 & Hcode & Hall).
  exists w1. split; [exact Hrun|].
  intros ui' w' Hsame Hlive' Hclick' Hrc.
  rewrite Hdoc in Hsame.
  destruct (retrieve_run ui' w' fs1 _ _ Hsame Hvalid1 Hcode
              (share_code_of_not_empty _) Hlive' Hclick' Hrc)
    as (w'' & Hrun' & _).
  exists w''. rewrite Hrun'. cbn [i_files].
  set (entry := mk_info file_data (salt_of (entropy w)) (clock w O) e).
  change (salt_of (entropy w)) with (i_salt entry) in Hall.
  rewrite (rows_of_stored (use_encryption ui) (share_code_of (entropy w))
             entry (uploaded_files ui) file_data Hall).
  reflexivity.
Qed.

Lemma shared_files_reach_another_session_witness :
  exists w1,
    @main xor_primitives
      (sender_widgets [new_upload; mk_upload "all.bin" all_bytes] true)
      collision_world
    = Ok (mk_page (Some (share_code_of (entropy collision_world))) None []
                  None None false, w1)
    /\ forall (ui' : widgets) (w' : world),
         SHARED_DATA_FILE w' = SHARED_DATA_FILE w1 ->
         datetime_gt (clock w' O) (mk_datetime 2024 3 2 12 0 0 1) = false ->
         clicked ui' = Some RetrieveFiles ->
         receive_code ui' = share_code_of (entropy collision_world) ->
         exists w'',
           @main xor_primitives ui' w'
           = Ok (mk_page (truthy (share_code (st w'))) (Some FilesFound)
                   (map (fun file =>
                           download_button (u_value file) (u_name file))
                        (uploaded_files
                           (sender_widgets
                              [new_upload; mk_upload "all.bin" all_bytes] true)))
                   None None false, w'').
Proof.
  apply (@shared_files_reach_another_session xor_primitives
           (sender_widgets [new_upload; mk_upload "all.bin" all_bytes] true)
           collision_world {[ "000000"%string := old_info ]}
           (mk_datetime 2024 3 2 12 0 0 1)).
  - right. split; reflexivity.
  - apply map_Forall_singleton. reflexivity.
  - reflexivity.
  - discriminate.
  - reflexivity.
  - intros _. split; [exact xor_primitives_ok|]. intros i. reflexivity.
  - reflexivity.
  - reflexivity.
  - reflexivity.
  - intros i. reflexivity.
Defined.

(** A run that reaches its end leaves in the file exactly the records it
    leaves in the session; a run that ends in [st.rerun()] has cleared the
    code shown. *)
Theorem completed_run_persists_session `{Primitives} (ui : widgets)
    (w w' : world) (pg : page) :
  main ui w = Ok (pg, w') ->
  (rerun pg = false ->
   SHARED_DATA_FILE w' = Some (json_of_info <$> files (st w')))
  /\ (rerun pg = true -> share_code (st w') = None).
Proof.
  unfold main. intros Hrun.
  apply bind_inv in Hrun as (_ & w1 & _ & Hrun).
  apply bind_inv in Hrun as (_ & w2 & _ & Hrun).
  apply bind_inv in Hrun as ([shown rr] & w3 & Hshown & Hrun).
  cbn [snd fst] in Hrun. destruct rr.
  - unfold ret in Hrun. injection Hrun as Epg Ew. subst pg w3. cbn [rerun].
    split; [discriminate|]. intros _.
    unfold share_code_column in Hshown.
    apply bind_inv in Hshown as (s & w4 & Hs & Hshown).
    destruct (truthy (share_code s)); [|discriminate].
    destruct (st_button ui GenerateNewCode); [|discriminate].
    apply bind_inv in Hshown as (u & w5 & Hset & Hret).
    unfold ret in Hret. unfold set_state in Hset.
    injection Hret as _ E3. injection Hset as _ E5. subst w' w5. reflexivity.
  - apply bind_inv in Hrun as (msg & w4 & _ & Hrun).
    apply bind_inv in Hrun as (downloads & w5 & _ & Hrun).
    apply bind_inv in Hrun as (u & w6 & Hclean & Hret).
    unfold ret in Hret. injection Hret as Epg Ew. subst pg w6. cbn [rerun].
    split; [|discriminate]. intros _.
    destruct (cleanup_expired_spec w5) as (fs' & clk & Hclean' & _).
    rewrite Hclean' in Hclean. injection Hclean as _ Ew. subst w'. reflexivity.
Qed.

Lemma completed_run_persists_session_witness :
  exists pg w',
    @main xor_primitives idle sample_world = Ok (pg, w')
    /\ (rerun pg = false ->
        SHARED_DATA_FILE w' = Some (json_of_info <$> files (st w')))
    /\ (rerun pg = true -> share_code (st w') = None).
Proof.
  destruct (@main xor_primitives idle sample_world) as [[pg w']|e] eqn:E.
  - exists pg, w'. split; [reflexivity|].
    exact (@completed_run_persists_session xor_primitives idle sample_world
             w' pg E).
  - exfalso. vm_compute in E. discriminate E.
Defined.

Lemma on_retrieve_files_expired (w : world) (code : string)
    (file_info : info) :
  files (st w) !! code = Some file_info ->
  datetime_gt (clock w O) (i_expires file_info) = true ->
  on_retrieve_files code w = Ok (CodeExpired, with_clock w (tail (clock w))).
Proof.
  intros Hcode Hexp. unfold on_retrieve_files, bind, get_state.
  rewrite Hcode. cbn [datetime_now]. now rewrite Hexp.
Qed.

(** "Generate New Code" only clears the code shown and stops the run: the
    records, the share just created among them, remain in the session and
    the file is not written; the retrieve handler, the file list and the
    cleanup are not reached. *)
Theorem generate_new_code_keeps_the_share `{Primitives} (ui : widgets)
    (w : world) (fs : gmap string info) (code : string) :
  starts_from w fs -> valid_files fs ->
  truthy (share_code (st w)) = Some code ->
  clicked ui = Some GenerateNewCode ->
  main ui w
  = Ok (mk_page (Some code) None [] None None true,
        mk_world (mk_session fs None (encryption_key (st w))
                             (current_download (st w)))
                 (SHARED_DATA_FILE w) (entropy w) (clock w) (epoch w)).
Proof.
  intros Hstart Hvalid Hcode Hclick.
  assert (Hg : st_button ui GenerateShareCode = false).
  { unfold st_button. now rewrite Hclick. }
  assert (Hn : st_button ui GenerateNewCode = true).
  { unfold st_button. now rewrite Hclick. }
  unfold main.
  erewrite bind_ok by (apply (load_shared_data_starts_from _ fs); assumption).
  erewrite bind_ok by (apply send_column_idle, Hg).
  unfold share_code_column at 1. unfold bind, get_state, set_state, ret.
  cbn [with_state st set_files share_code]. rewrite Hcode, Hn. reflexivity.
Qed.

Lemma generate_new_code_keeps_the_share_witness :
  @main xor_primitives new_code_widgets showing_world
  = Ok (mk_page (Some "000000"%string) None [] None None true,
        mk_world (mk_session {[ "000000"%string := old_info ]} None
                             (encryption_key (st showing_world))
                             (current_download (st showing_world)))
                 (SHARED_DATA_FILE showing_world) (entropy showing_world)
                 (clock showing_world) (epoch showing_world)).
Proof.
  apply (@generate_new_code_keeps_the_share xor_primitives new_code_widgets
           showing_world {[ "000000"%string := old_info ]} "000000").
  - right. split; reflexivity.
  - apply map_Forall_singleton. reflexivity.
  - reflexivity.
  - reflexivity.
Defined.

(** The expiry check guards the retrieve button only.  In a session whose
    [current_download] already holds the code, clicking "Retrieve Files"
    after the expiry reports the expired code, and the same run still lists
    the record's files with their download buttons. *)
Theorem expired_code_is_still_listed `{Primitives} (ui : widgets) (w : world)
    (fs : gmap string info) (code : string) (file_info : info) :
  starts_from w fs -> valid_files fs ->
  fs !! code = Some file_info -> String.eqb code "" = false ->
  current_download (st w) = Some code ->
  datetime_gt (clock w O) (i_expires file_info) = true ->
  clicked ui = Some RetrieveFiles -> receive_code ui = code ->
  exists w',
    main ui w
    = Ok (mk_page (truthy (share_code (st w))) (Some CodeExpired)
                  (map (file_row code file_info) (i_files file_info))
                  None None false, w').
Proof.
  intros Hstart Hvalid Hcode Hne Hcur Hexp Hclick Hrc.
  assert (Hb : forall b, b <> RetrieveFiles -> st_button ui b = false).
  { intros b Hbne. unfold st_button. rewrite Hclick. now destruct b. }
  assert (Hr : st_button ui RetrieveFiles = true).
  { unfold st_button. now rewrite Hclick. }
  unfold main.
  erewrite bind_ok by (apply (load_shared_data_starts_from _ fs); assumption).
  erewrite bind_ok by (apply send_column_idle, Hb; discriminate).
  erewrite bind_ok by (apply share_code_column_idle, Hb; discriminate).
  cbn [snd fst with_state st set_files share_code].
  unfold receive_column. rewrite Hr, Hrc.
  erewrite bind_ok.
  2:{ erewrite bind_ok; [reflexivity|].
      apply (on_retrieve_files_expired _ code file_info);
        [exact Hcode | exact Hexp]. }
  erewrite bind_ok.
  2:{ apply (download_column_rows _ _ code file_info).
      - cbn [st current_download set_files with_clock with_state].
        rewrite Hcur. cbn [truthy]. now rewrite Hne.
      - exact Hcode.
      - apply Hb. discriminate.
      - apply Hb. discriminate. }
  match goal with |- context [bind cleanup_expired _ ?w0] =>
    destruct (cleanup_expired_spec w0) as (fs' & clk & Hclean & _) end.
  erewrite bind_ok by exact Hclean. cbn [ret fst snd].
  eexists. reflexivity.
Qed.

Lemma expired_code_is_still_listed_witness :
  exists w',
    @main xor_primitives (receiver_widgets "271828") viewing_world
    = Ok (mk_page (truthy (share_code (st viewing_world))) (Some CodeExpired)
                  (map (@file_row xor_primitives "271828" expired_info)
                       (i_files expired_info))
                  None None false, w').
Proof.
  apply (@expired_code_is_still_listed xor_primitives
           (receiver_widgets "271828") viewing_world
           {[ "271828"%string := expired_info ]} "271828" expired_info).
  - right. split; reflexivity.
  - apply map_Forall_singleton. reflexivity.
  - reflexivity.
  - reflexivity.
  - reflexivity.
  - reflexivity.
  - reflexivity.
  - reflexivity.
Defined.

(** ** The record a share creates *)

Lemma stored_fields `{Primitives} (use_enc : bool) (key : bytes)
    (uploads : list uploaded_file) (entries : list file_entry) :
  Forall2 (stored_as use_enc key) uploads entries ->
  map f_name entries = map u_name uploads
  /\ map f_size entries
     = map (fun file => N.of_nat (length (u_value file))) uploads
  /\ Forall (fun entry => f_encrypted entry = use_enc) entries.
Proof.
  induction 1 as [|file entry l l' (Hn & Hs & He & _) _ (IHn & IHs & IHe)].
  - repeat split. constructor.
  - cbn [map]. rewrite Hn, Hs, IHn, IHs. repeat split. now constructor.
Qed.

(** The record stored for a share has one entry per uploaded file, in upload
    order, under the uploaded name; [size] is the length of the uploaded
    bytes also when the stored data is ciphertext; every entry carries the
    state of the encryption checkbox; the salt is 16 bytes taken from the
    random source right after the six readings of the code.  The session
    remembers the code and the derived key, and its [current_download] is
    not touched. *)
Theorem new_record_describes_uploads `{Primitives}
    (uploads : list uploaded_file) (use_enc : bool) (w : world) :
  (use_enc = true -> PrimitivesOk /\ forall i, epoch w i < 2 ^ 64) ->
  valid_datetime (clock w 1%nat) = true -> year (clock w 1%nat) < MAXYEAR ->
  exists w' entry,
    on_generate_share_code uploads use_enc w = Ok (tt, w')
    /\ files (st w') !! share_code_of (entropy w) = Some entry
    /\ map f_name (i_files entry) = map u_name uploads
    /\ map f_size (i_files entry)
       = map (fun file => N.of_nat (length (u_value file))) uploads
    /\ Forall (fun file_data => f_encrypted file_data = use_enc)
              (i_files entry)
    /\ i_salt entry = map byte_of_N (take_tape 16 (drop_tape 6 (entropy w)))
    /\ length (i_salt entry) = 16%nat
    /\ share_code (st w') = Some (share_code_of (entropy w))
    /\ encryption_key (st w')
       = Some (generate_encryption_key (share_code_of (entropy w))
                 (i_salt entry))
    /\ current_download (st w') = current_download (st w).
Proof.
  intros Hprims Hvalid Hyear.
  destruct (datetime_add_24h_ok _ Hvalid Hyear) as [e Hadd].
  destruct (on_generate_share_code_spec uploads use_enc w e Hprims Hadd)
    as (file_data & w' & Hrun & Hst & _ & _ & Hall).
  destruct (stored_fields _ _ _ _ Hall) as (Hn & Hs & He).
  eexists w', _. split; [exact Hrun|]. rewrite Hst.
  cbn [files share_code encryption_key current_download].
  rewrite lookup_insert_eq. split; [reflexivity|].
  cbn [i_files i_salt]. repeat split; assumption.
Qed.

Lemma new_record_describes_uploads_witness :
  exists w' entry,
    @on_generate_share_code xor_primitives
      [new_upload; mk_upload "empty" []] true collision_world = Ok (tt, w')
    /\ files (st w') !! share_code_of (entropy collision_world) = Some entry
    /\ map f_name (i_files entry)
       = map u_name [new_upload; mk_upload "empty" []]
    /\ map f_size (i_files entry)
       = map (fun file => N.of_nat (length (u_value file)))
             [new_upload; mk_upload "empty" []]
    /\ Forall (fun file_data => f_encrypted file_data = true) (i_files entry)
    /\ i_salt entry
       = map byte_of_N (take_tape 16 (drop_tape 6 (entropy collision_world)))
    /\ length (i_salt entry) = 16%nat
    /\ share_code (st w') = Some (share_code_of (entropy collision_world))
    /\ encryption_key (st w')
       = Some (@generate_encryption_key xor_primitives
                 (share_code_of (entropy collision_world)) (i_salt entry))
    /\ current_download (st w') = current_download (st collision_world).
Proof.
  apply (@new_record_describes_uploads xor_primitives
           [new_upload; mk_upload "empty" []] true collision_world).
  - intros _. split; [exact xor_primitives_ok|]. intros i. reflexivity.
  - reflexivity.
  - reflexivity.
Defined.

(** ** Every code can come out *)

Lemma digit_value_inv (c : ascii) (d : N) :
  digit_value c = Some d -> d < 10 /\ digit_char d = c.
Proof.
  unfold digit_value, digit_char.
  destruct ((48 <=? N_of_ascii c) && (N_of_ascii c <=? 57)) eqn:E;
    [|discriminate].
  intros [= <-]. split_andb. split; [lia|].
  replace (48 + (N_of_ascii c - 48)) with (N_of_ascii c) by lia.
  apply ascii_N_embedding.
Qed.

Lemma is_digit_inv (c : ascii) :
  is_digit c = true -> exists d, d < 10 /\ digit_char d = c.
Proof.
  unfold is_digit. destruct (digit_value c) as [d|] eqn:E; [|discriminate].
  intros _. exists d. now apply digit_value_inv.
Qed.

(** Every string of six decimal digits, with leading zeros or not, is
    returned by the generator for a suitable run of the random source: the
    code space is all of 000000 to 999999, and nothing but the random
    source decides the code. *)
Theorem every_six_digit_code_is_generated (code : string) (w : world) :
  is_share_code code = true ->
  exists readings,
    length readings = 6%nat
    /\ generate_share_code (with_entropy w (tape_of readings))
       = Ok (code, with_entropy w (drop_tape 6 (tape_of readings))).
Proof.
  intros Hfmt. unfold is_share_code in Hfmt.
  apply andb_true_iff in Hfmt as [Hlen Hdigits].
  destruct code as [|c1 [|c2 [|c3 [|c4 [|c5 [|c6 [|c7 rest]]]]]]];
    try discriminate.
  cbn [list_ascii_of_string forallb] in Hdigits.
  apply andb_true_iff in Hdigits as [H1 Hdigits].
  apply andb_true_iff in Hdigits as [H2 Hdigits].
  apply andb_true_iff in Hdigits as [H3 Hdigits].
  apply andb_true_iff in Hdigits as [H4 Hdigits].
  apply andb_true_iff in Hdigits as [H5 Hdigits].
  apply andb_true_iff in Hdigits as [H6 _].
  apply is_digit_inv in H1 as (d1 & Hd1 & <-).
  apply is_digit_inv in H2 as (d2 & Hd2 & <-).
  apply is_digit_inv in H3 as (d3 & Hd3 & <-).
  apply is_digit_inv in H4 as (d4 & Hd4 & <-).
  apply is_digit_inv in H5 as (d5 & Hd5 & <-).
  apply is_digit_inv in H6 as (d6 & Hd6 & <-).
  exists [d1; d2; d3; d4; d5; d6]. split; [reflexivity|].
  rewrite generate_share_code_spec. cbn [with_entropy entropy st
    SHARED_DATA_FILE clock epoch].
  f_equal. f_equal.
  unfold share_code_of, tape_of. cbn [take_tape map]. unfold tail.
  cbn [nth String.concat].
  rewrite !N.mod_small by assumption.
  rewrite !str_of_digit by assumption. reflexivity.
Qed.

Lemma every_six_digit_code_is_generated_witness :
  exists readings,
    length readings = 6%nat
    /\ generate_share_code (with_entropy sample_world (tape_of readings))
       = Ok ("007490"%string,
             with_entropy sample_world (drop_tape 6 (tape_of readings))).
Proof.
  apply (every_six_digit_code_is_generated "007490" sample_world).
  reflexivity.
Defined.

(** ** Keys and tokens *)

Lemma b2a_base64_length (data : bytes) :
  length (b2a_base64 data) = (4 * ((length data + 2) / 3))%nat.
Proof.
  induction data as [|a|a b|a b c rest IH] using bytes_ind3;
    try reflexivity.
  cbn [b2a_base64 length]. rewrite IH.
  replace (S (S (S (length rest))) + 2)%nat
    with (1 * 3 + (length rest + 2))%nat by lia.
  rewrite Nat.div_add_l by lia. lia.
Qed.

Lemma urlsafe_b64encode_length (data : bytes) :
  length (urlsafe_b64encode data) = (4 * ((length data + 2) / 3))%nat.
Proof.
  unfold urlsafe_b64encode, b64encode.
  now rewrite length_map, b2a_base64_length.
Qed.

Lemma pkcs7_pad_exact_length (data : bytes) :
  length (pkcs7_pad data) = (16 * (length data / 16 + 1))%nat.
Proof.
  unfold pkcs7_pad. rewrite length_app, repeat_length.
  pose proof (Nat.mod_upper_bound (length data) 16 ltac:(lia)).
  pose proof (Nat.div_mod_eq (length data) 16). lia.
Qed.

(** For every password and every salt, the empty salt included, the derived
    key is 44 bytes of url-safe base64 that [Fernet] accepts and splits into
    a 16-byte signing key and a 16-byte encryption key: the script can never
    fail on a key of its own making. *)
Theorem derived_key_is_a_fernet_key `{PrimitivesOk} (password : string)
    (salt : bytes) :
  length (generate_encryption_key password salt) = 44%nat
  /\ exists f,
      Fernet (generate_encryption_key password salt) = Ok f
      /\ length (_signing_key f) = 16%nat
      /\ length (_encryption_key f) = 16%nat.
Proof.
  split; [|apply Fernet_generated_key].
  unfold generate_encryption_key.
  now rewrite urlsafe_b64encode_length, pbkdf2_length.
Qed.

Lemma derived_key_is_a_fernet_key_witness :
  length (@generate_encryption_key xor_primitives "" []) = 44%nat
  /\ exists f,
      Fernet (@generate_encryption_key xor_primitives "" []) = Ok f
      /\ length (_signing_key f) = 16%nat
      /\ length (_encryption_key f) = 16%nat.
Proof.
  exact (@derived_key_is_a_fernet_key xor_primitives xor_primitives_ok "" []).
Defined.

(** What [encrypt_file] returns under a derived key is a token whose length
    depends only on the length of the plaintext, 100 bytes at the least and
    always longer than the plaintext, so it is never the plaintext itself.
    The call takes one reading of the epoch clock and sixteen of the random
    source and leaves the session, the file and the wall clock alone. *)
Theorem encrypt_file_token_shape `{PrimitivesOk} (p : bytes)
    (password : string) (salt : bytes) (w : world) :
  epoch w O < 2 ^ 64 ->
  exists token,
    encrypt_file p (generate_encryption_key password salt) w
    = Ok (token, mk_world (st w) (SHARED_DATA_FILE w)
                          (drop_tape 16 (entropy w)) (clock w)
                          (tail (epoch w)))
    /\ length token
       = (4 * ((57 + 16 * (length p / 16 + 1) + 2) / 3))%nat
    /\ (100 <= length token)%nat
    /\ (length p < length token)%nat
    /\ token <> p.
Proof.
  intros Hts.
  destruct (Fernet_generated_key password salt) as (f & Hf & _ & Hek).
  eexists. split; [exact (encrypt_file_spec p _ f w Hf Hts)|].
  cbv zeta.
  set (iv := map byte_of_N (take_tape 16 (entropy w))).
  assert (Hiv : length iv = 16%nat).
  { unfold iv. now rewrite length_map, length_take_tape. }
  set (ct := cbc_encrypt (_encryption_key f) iv (pkcs7_pad p)).
  assert (Hct : length ct = (16 * (length p / 16 + 1))%nat).
  { unfold ct. rewrite cbc_encrypt_length; try assumption.
    - apply pkcs7_pad_exact_length.
    - apply pkcs7_pad_length. }
  assert (Hlen : length (urlsafe_b64encode
                   (basic_parts (big_endian 8 (epoch w O)) iv ct
                    ++ hmac_sha256 (_signing_key f)
                         (basic_parts (big_endian 8 (epoch w O)) iv ct)))
                 = (4 * ((57 + 16 * (length p / 16 + 1) + 2) / 3))%nat).
  { rewrite urlsafe_b64encode_length, length_app, hmac_length.
    unfold basic_parts. cbn [length].
    rewrite !length_app, big_endian_length, Hiv, Hct.
    do 2 f_equal. lia. }
  split; [exact Hlen|].
  assert (Hbig : (100 <= 4 * ((57 + 16 * (length p / 16 + 1) + 2) / 3)
                  /\ length p < 4 * ((57 + 16 * (length p / 16 + 1) + 2) / 3))%nat).
  { pose proof (Nat.div_mod_eq (length p) 16).
    pose proof (Nat.mod_upper_bound (length p) 16 ltac:(lia)).
    pose proof (Nat.div_mod_eq (57 + 16 * (length p / 16 + 1) + 2) 3).
    pose proof (Nat.mod_upper_bound (57 + 16 * (length p / 16 + 1) + 2) 3
                  ltac:(lia)).
    lia. }
  rewrite Hlen. split; [apply Hbig|]. split; [apply Hbig|].
  intros E. apply (f_equal length) in E. rewrite Hlen in E. lia.
Qed.

Lemma encrypt_file_token_shape_witness :
  exists token,
    @encrypt_file xor_primitives [] (generate_encryption_key "042137" [])
      sample_world
    = Ok (token, mk_world (st sample_world) (SHARED_DATA_FILE sample_world)
                          (drop_tape 16 (entropy sample_world))
                          (clock sample_world) (tail (epoch sample_world)))
    /\ length token
       = (4 * ((57 + 16 * (length (@nil byte) / 16 + 1) + 2) / 3))%nat
    /\ (100 <= length token)%nat
    /\ (length (@nil byte) < length token)%nat
    /\ token <> [].
Proof.
  apply (@encrypt_file_token_shape xor_primitives xor_primitives_ok []
           "042137" [] sample_world).
  reflexivity.
Defined.
